(** * obsidian-transcription: the multipart upload, the link collector and
      the orchestrator of [src/main.ts] and [src/transcribe.ts]

    The plugin's code is embedded shallowly.  JavaScript strings are lists of
    UTF-16 code units, byte buffers are lists of octets, the host editor
    (vault, metadata cache, network) is an interface whose operations the
    orchestrator calls, and the promise chains of the fan-out are a pool of
    small state machines stepped by an arbitrary schedule. *)

From Stdlib Require Import ZArith NArith Ascii String Floats.PrimFloat.
From stdpp Require Import base option list gmap.

Local Open Scope N_scope.

(** ** JavaScript values used by the plugin *)

(** A JavaScript string: its sequence of UTF-16 code units. *)
Abbreviation jsstring := (list N) (only parsing).
(** An [ArrayBuffer] / [Uint8Array]: its sequence of octets. *)
Abbreviation bytes := (list N) (only parsing).
(** A JavaScript [number] is an IEEE-754 binary64 value. *)
Abbreviation number := float.

Module JS.

(** A string literal of the source whose characters are all ASCII. *)
Definition lit (s : string) : jsstring :=
  map N_of_ascii (list_ascii_of_string s).
Arguments lit s%_string.

Definition dq : jsstring := [34].          (* the character U+0022 *)
Definition crlf : jsstring := [13; 10].    (* the escape \r\n *)
Definition nl : jsstring := [10].          (* the escape \n *)

(** [String.prototype.split] with a separator of one code unit: the pieces
    between the separators, never an empty array. *)
Fixpoint split (sep : N) (s : jsstring) : list jsstring :=
  match s with
  | [] => [[]]
  | c :: s' =>
      if c =? sep then [] :: split sep s'
      else match split sep s' with
           | [] => [[c]]
           | w :: ws => (c :: w) :: ws
           end
  end.

(** [Array.prototype.pop]: the last element, [undefined] on an empty array
    (the shortened array is not used by the callers). *)
Definition pop {A} (l : list A) : option A := last l.

(** [Array.prototype.includes] on an array of strings. *)
Definition includes (l : list jsstring) (x : jsstring) : bool :=
  bool_decide (x ∈ l).

(** [Array.prototype.join]. *)
Fixpoint join (sep : jsstring) (l : list jsstring) : jsstring :=
  match l with
  | [] => []
  | [x] => x
  | x :: l' => x ++ sep ++ join sep l'
  end.

Fixpoint starts_with (p s : jsstring) : bool :=
  match p, s with
  | [], _ => true
  | _ :: _, [] => false
  | a :: p', b :: s' => (a =? b) && starts_with p' s'
  end.

(** [String.prototype.indexOf]: the index of the first occurrence of
    [sub], [-1] when there is none. *)
Fixpoint indexOf_from (i : Z) (s sub : jsstring) : Z :=
  if starts_with sub s then i
  else match s with
       | [] => (-1)%Z
       | _ :: s' => indexOf_from (i + 1)%Z s' sub
       end.
Definition indexOf (s sub : jsstring) : Z := indexOf_from 0%Z s sub.

(** [String.prototype.slice(start, end)]; [None] is an omitted [end].
    Negative indices count from the end, everything is clamped to the
    string. *)
Definition rel_index (len i : Z) : Z :=
  if (i <? 0)%Z then Z.max (len + i) 0 else Z.min i len.
Definition slice (s : jsstring) (start : Z) (end_ : option Z) : jsstring :=
  let len := Z.of_nat (length s) in
  let from := rel_index len start in
  let to := match end_ with None => len | Some e => rel_index len e end in
  take (Z.to_nat (to - from)) (drop (Z.to_nat from) s).

(** White space and line terminators, the code units [trim] strips. *)
Definition is_white_space (c : N) : bool :=
  (c =? 0x09) || (c =? 0x0A) || (c =? 0x0B) || (c =? 0x0C) || (c =? 0x0D)
  || (c =? 0x20) || (c =? 0xA0) || (c =? 0x1680)
  || ((0x2000 <=? c) && (c <=? 0x200A))
  || (c =? 0x2028) || (c =? 0x2029) || (c =? 0x202F) || (c =? 0x205F)
  || (c =? 0x3000) || (c =? 0xFEFF).

Fixpoint trimStart (s : jsstring) : jsstring :=
  match s with
  | [] => []
  | c :: s' => if is_white_space c then trimStart s' else s
  end.
Definition trimEnd (s : jsstring) : jsstring := rev (trimStart (rev s)).
(** [String.prototype.trim]. *)
Definition trim (s : jsstring) : jsstring := trimEnd (trimStart s).

(** [Object.prototype.toString] of a plain object. *)
Definition object_toString : jsstring := lit "[object Object]".

(** *** [TextEncoder.encode]: UTF-8 of a UTF-16 string *)

Definition is_high_surrogate (c : N) : bool := (0xD800 <=? c) && (c <=? 0xDBFF).
Definition is_low_surrogate (c : N) : bool := (0xDC00 <=? c) && (c <=? 0xDFFF).

Definition utf8_scalar (u : N) : bytes :=
  if u <? 0x80 then [u]
  else if u <? 0x800 then
    [N.lor 0xC0 (N.shiftr u 6); N.lor 0x80 (N.land u 0x3F)]
  else if u <? 0x10000 then
    [N.lor 0xE0 (N.shiftr u 12);
     N.lor 0x80 (N.land (N.shiftr u 6) 0x3F);
     N.lor 0x80 (N.land u 0x3F)]
  else
    [N.lor 0xF0 (N.shiftr u 18);
     N.lor 0x80 (N.land (N.shiftr u 12) 0x3F);
     N.lor 0x80 (N.land (N.shiftr u 6) 0x3F);
     N.lor 0x80 (N.land u 0x3F)].

(** A surrogate pair is one scalar value; a lone surrogate is encoded as
    U+FFFD. *)
Fixpoint utf8 (s : jsstring) : bytes :=
  match s with
  | [] => []
  | c :: s' =>
      if is_high_surrogate c then
        match s' with
        | d :: s'' =>
            if is_low_surrogate d then
              utf8_scalar (0x10000 + (c - 0xD800) * 0x400 + (d - 0xDC00))
                ++ utf8 s''
            else utf8_scalar 0xFFFD ++ utf8 s'
        | [] => utf8_scalar 0xFFFD
        end
      else if is_low_surrogate c then utf8_scalar 0xFFFD ++ utf8 s'
      else utf8_scalar c ++ utf8 s'
  end.

(** The octets of an ASCII literal. *)
Definition ascii_bytes (s : string) : bytes := lit s.
Arguments ascii_bytes s%_string.

End JS.

Import JS.

(** ** [src/transcribe.ts]: the data model *)

(** [interface TranscriptionSegment]; the field [end] is a keyword here. *)
Record TranscriptionSegment := {
  seg_id : number;
  seg_seek : number;
  seg_start : number;
  seg_end : number;
  seg_text : jsstring;
  seg_tokens : list number;
  seg_temperature : number;
  seg_avg_logprob : number;
  seg_compression_ratio : number;
  seg_no_speech_prob : number
}.

(** [interface TranscriptionResult]. *)
Record TranscriptionResult := {
  tr_text : jsstring;
  tr_segments : list TranscriptionSegment;
  tr_language : jsstring
}.

(** [interface TranscriptionSettings] of [main.ts]. *)
Record TranscriptionSettings := {
  timestamps : bool;
  transcribeFileExtensions : jsstring;
  whisperASRUrl : jsstring;
  debug : bool
}.

Definition DEFAULT_SETTINGS : TranscriptionSettings := {|
  timestamps := false;
  transcribeFileExtensions := lit "mp3,wav,webm";
  whisperASRUrl := lit "http://localhost:9000";
  debug := false
|}.

(** The parts of the host's [TFolder] and [TFile] the plugin reads. *)
Record TFolder := { folder_path : jsstring }.
Record TFile := { path : jsstring; name : jsstring; parent : TFolder }.
(** What [getAbstractFileByPath] may return besides [null]. *)
Inductive TAbstractFile :=
| AFile (f : TFile)
| AFolder (d : TFolder).

(** [RequestUrlParam] as the plugin fills it. *)
Record RequestUrlParam := {
  method : jsstring;
  url : jsstring;
  contentType : jsstring;
  body : bytes
}.

(** A thrown or rejected value, kept as the string [String(error)] that the
    notification concatenates. *)
Abbreviation js_error := (list N) (only parsing).

(** ** [getTranscriptionWhisperASR]: building the multipart request *)

Section Multipart.

(** [rnd] is the value returned by [randomString(16)] of [src/utils]. *)
Variable rnd : jsstring.

Definition randomBoundaryString : jsstring := lit "Boundary" ++ rnd.

Definition pre_string : jsstring :=
  lit "------" ++ randomBoundaryString ++ crlf
  ++ lit "Content-Disposition: form-data; name=" ++ dq ++ lit "audio_file" ++ dq
  ++ lit "; filename=" ++ dq ++ lit "blob" ++ dq ++ crlf
  ++ lit "Content-Type: " ++ dq ++ lit "application/octet-stream" ++ dq ++ crlf
  ++ crlf.

Definition post_string : jsstring :=
  crlf ++ lit "------" ++ randomBoundaryString ++ lit "--".

(** The three-part [Blob] read back as one [ArrayBuffer]; [data] is the
    result of [vault.readBinary(file)]. *)
Definition concatenated (data : bytes) : bytes :=
  utf8 pre_string ++ data ++ utf8 post_string.

Definition options (settings : TranscriptionSettings) (data : bytes)
  : RequestUrlParam := {|
  method := lit "POST";
  url := whisperASRUrl settings ++ lit "/asr?task=transcribe&language=en&output=json";
  contentType := lit "multipart/form-data; boundary=----" ++ randomBoundaryString;
  body := concatenated data
|}.

End Multipart.

(** The [boundary] parameter of a [multipart/form-data] content type. *)
Definition boundary_param (ct : jsstring) : option jsstring :=
  let p := lit "multipart/form-data; boundary=" in
  if starts_with p ct then Some (drop (length p) ct) else None.

(** The header block of the single part, after the opening delimiter line. *)
Definition part_headers : bytes :=
  ascii_bytes "Content-Disposition: form-data; name=" ++ [34]
  ++ ascii_bytes "audio_file" ++ [34] ++ ascii_bytes "; filename=" ++ [34]
  ++ ascii_bytes "blob" ++ [34] ++ [13; 10]
  ++ ascii_bytes "Content-Type: " ++ [34] ++ ascii_bytes "application/octet-stream"
  ++ [34] ++ [13; 10]
  ++ [13; 10].

(** ** The host: Obsidian's vault, metadata cache and network

    [V] is the state of everything outside the plugin.  An operation that
    can reject returns [inl error]. *)

(** The response of [requestUrl]; [json] is a getter that parses the body
    and may throw. *)
Record RequestUrlResponse := {
  response_json : js_error + TranscriptionResult
}.

Class Host (V : Type) := {
  (** [app.vault.read], [readBinary], [modify], [createBinary],
      [getAbstractFileByPath] *)
  vault_read : TFile → V → js_error + jsstring;
  vault_readBinary : TFile → V → js_error + bytes;
  vault_modify : TFile → jsstring → V → js_error + V;
  vault_createBinary : jsstring → bytes → V → js_error + V;
  vault_getAbstractFileByPath : jsstring → V → option TAbstractFile;
  (** [Object.keys(app.metadataCache.resolvedLinks[path])] and
      [app.metadataCache.fileToLinktext] *)
  resolvedLinks_keys : jsstring → V → list jsstring;
  fileToLinktext : TFile → jsstring → V → jsstring;
  (** [requestUrl] of the host and [randomString] of [src/utils] *)
  requestUrl : RequestUrlParam → V → js_error + RequestUrlResponse;
  randomString : N → V → jsstring * V
}.

(** What the user sees and what the console shows; [env] is the host. *)
Record World (V : Type) := mkWorld {
  env : V;
  notices : list (jsstring * option N);
  console : list jsstring
}.
Arguments mkWorld {V}.
Arguments env {V}.
Arguments notices {V}.
Arguments console {V}.

Definition set_env {V} (v : V) (w : World V) : World V :=
  mkWorld v (notices w) (console w).
(** [new Notice(message, timeout)] *)
Definition new_Notice {V} (message : jsstring) (timeout : option N)
  (w : World V) : World V :=
  mkWorld (env w) (notices w ++ [(message, timeout)]) (console w).
(** [console.log] and [console.error] *)
Definition console_log {V} (message : jsstring) (w : World V) : World V :=
  mkWorld (env w) (notices w) (console w ++ [message]).
(** The [debug] method of the plugin and of the engine. *)
Definition debug_log {V} (settings : TranscriptionSettings) (message : jsstring)
  (w : World V) : World V :=
  if debug settings then console_log message w else w.

(** ** [main.ts], [editorCallback]: the link collector *)

(** [linkedFilePath.split(".").pop()] *)
Definition linkedFileExtension (linkedFilePath : jsstring) : option jsstring :=
  pop (split 46 linkedFilePath).

(** The condition of the [if] that skips a link. *)
Definition skipped (settings : TranscriptionSettings) (linkedFilePath : jsstring)
  : bool :=
  match linkedFileExtension linkedFilePath with
  | None => true
  | Some ext => negb (includes (split 44 (transcribeFileExtensions settings)) ext)
  end.

Section Collector.
Context {V : Type} `{Host V}.
Variable settings : TranscriptionSettings.

(** The first [for] loop; [filesToTranscribe] is the array it pushes to. *)
Fixpoint collect (filesLinked : list jsstring) (filesToTranscribe : list TFile)
  (w : World V) : list TFile * World V :=
  match filesLinked with
  | [] => (filesToTranscribe, w)
  | linkedFilePath :: rest =>
      if skipped settings linkedFilePath then
        collect rest filesToTranscribe
          (debug_log settings
             (lit "Skipping " ++ linkedFilePath ++
              lit " because the file extension is not in the list of transcribable file extensions")
             w)
      else
        match vault_getAbstractFileByPath linkedFilePath (env w) with
        | Some (AFile linkedFile) =>
            collect rest (filesToTranscribe ++ [linkedFile]) w
        | _ =>
            collect rest filesToTranscribe
              (debug_log settings (lit "Could not find file " ++ linkedFilePath) w)
        end
  end.

End Collector.

(** ** [main.ts], [editorCallback]: the continuation of one transcription *)

Definition fileLinkStringTagged (fileLinkString : jsstring) : jsstring :=
  lit "[[" ++ fileLinkString ++ lit "]]".

Definition startReplacementIndex (fileText fileLinkStringTagged : jsstring) : Z :=
  (indexOf fileText fileLinkStringTagged
   + Z.of_nat (length fileLinkStringTagged))%Z.

(** [transcription.segments.map(s => s.text.trim()).join("\n")] *)
Definition segments (transcription : TranscriptionResult) : jsstring :=
  join nl (map (λ segment, trim (seg_text segment)) (tr_segments transcription)).

(** The new [fileText]: the three-element array joined with the empty string. *)
Definition spliced (fileText fileLinkString : jsstring)
  (transcription : TranscriptionResult) : jsstring :=
  let i := startReplacementIndex fileText (fileLinkStringTagged fileLinkString) in
  join [] [slice fileText 0 (Some i);
           nl ++ segments transcription;
           slice fileText i None].

(** A template literal renders [undefined] as the word. *)
Definition template_of (o : option jsstring) : jsstring :=
  match o with Some s => s | None => lit "undefined" end.

Definition fileLinkStringJson (fileLinkString : jsstring) : jsstring :=
  template_of (pop (split 46 fileLinkString)) ++ lit ".json".

(** The first argument of [createBinary]. *)
Definition sidecar_path (fileToTranscribe : TFile) (fileLinkString : jsstring)
  : jsstring :=
  folder_path (parent fileToTranscribe) ++ lit "/" ++ fileLinkStringJson fileLinkString.

(** The message of the [catch] callback. *)
Definition error_message (settings : TranscriptionSettings)
  (fileToTranscribe : TFile) (error : js_error) : jsstring :=
  if debug settings then
    lit "Error transcribing file " ++ name fileToTranscribe ++ lit ": " ++ error
  else lit "Error transcribing file, enable debug mode to see more".

(** ** The fan-out: one promise chain per file

    Every [await] and every promise reaction is a point where the event
    loop may run another chain.  A chain is kept as the stage it waits in;
    one step completes the pending host operation against the host as it is
    at that moment and runs the synchronous code up to the next wait. *)

Inductive stage :=
| AwaitReadBinary (rnd : jsstring)
    (* in [getTranscriptionWhisperASR], at [await this.vault.readBinary(file)] *)
| AwaitResponse (request : RequestUrlParam)
    (* at [requestUrl(options)] *)
| Fulfilled (transcription : TranscriptionResult)
    (* the engine's promise is fulfilled, [then] has not run yet *)
| AwaitRead (transcription : TranscriptionResult)
    (* at [await this.app.vault.read(view.file)] *)
| AwaitModify (transcription : TranscriptionResult)
    (fileLinkString fileText : jsstring)
    (* at [await this.app.vault.modify(view.file, fileText)] *)
| AwaitCreateBinary (sidecar : jsstring) (data : bytes)
    (* at [await this.app.vault.createBinary(...)] *)
| Rejected (error : js_error)
    (* the chain is rejected, [catch] has not run yet *)
| Done.

Record task := { fileToTranscribe : TFile; stage_of : stage }.

Section Orchestrator.
Context {V : Type} `{Host V}.
Variable settings : TranscriptionSettings.
(** [view.file], the document the command runs on. *)
Variable view_file : TFile.
(** [JSON.stringify] on a transcription. *)
Variable JSON_stringify : TranscriptionResult → jsstring.

(** [readBinary] has settled: build the request and send it. *)
Definition on_readBinary (file : TFile) (rnd : jsstring) (w : World V)
  : stage * World V :=
  match vault_readBinary file (env w) with
  | inl error => (Rejected error, w)
  | inr data =>
      (AwaitResponse (options rnd settings data),
       debug_log settings (lit "Transcribing with WhisperASR") w)
  end.

(** The [catch] inside the engine: log in debug mode, reject again. *)
Definition engine_catch (error : js_error) (w : World V) : stage * World V :=
  (Rejected error, if debug settings then console_log error w else w).

(** [requestUrl] has settled. *)
Definition on_response (request : RequestUrlParam) (w : World V)
  : stage * World V :=
  match requestUrl request (env w) with
  | inl error => engine_catch error w
  | inr response =>
      let w := debug_log settings object_toString w in
      match response_json response with
      | inl error => engine_catch error w
      | inr transcription => (Fulfilled transcription, w)
      end
  end.

(** The [then] callback up to its first [await]. *)
Definition on_fulfilled (transcription : TranscriptionResult) (w : World V)
  : stage * World V :=
  (AwaitRead transcription, debug_log settings object_toString w).

(** [vault.read] has settled: compute the new text and ask to write it. *)
Definition on_read (file : TFile) (transcription : TranscriptionResult)
  (w : World V) : stage * World V :=
  match vault_read view_file (env w) with
  | inl error => (Rejected error, w)
  | inr fileText =>
      let fileLinkString := fileToLinktext file (path view_file) (env w) in
      (AwaitModify transcription fileLinkString
         (spliced fileText fileLinkString transcription),
       debug_log settings fileLinkString w)
  end.

(** [vault.modify] has settled: ask to write the JSON next to the file. *)
Definition on_modify (file : TFile) (transcription : TranscriptionResult)
  (fileLinkString fileText : jsstring) (w : World V) : stage * World V :=
  match vault_modify view_file fileText (env w) with
  | inl error => (Rejected error, w)
  | inr v =>
      (AwaitCreateBinary (sidecar_path file fileLinkString)
         (utf8 (JSON_stringify transcription)),
       set_env v w)
  end.

(** [vault.createBinary] has settled. *)
Definition on_createBinary (sidecar : jsstring) (data : bytes) (w : World V)
  : stage * World V :=
  match vault_createBinary sidecar data (env w) with
  | inl error => (Rejected error, w)
  | inr v => (Done, set_env v w)
  end.

(** The [catch] callback of [editorCallback]. *)
Definition on_rejected (file : TFile) (error : js_error) (w : World V)
  : stage * World V :=
  (Done, new_Notice (error_message settings file error) None w).

Definition step (t : task) (w : World V) : task * World V :=
  let file := fileToTranscribe t in
  let '(s, w') :=
    match stage_of t with
    | AwaitReadBinary rnd => on_readBinary file rnd w
    | AwaitResponse request => on_response request w
    | Fulfilled transcription => on_fulfilled transcription w
    | AwaitRead transcription => on_read file transcription w
    | AwaitModify transcription fileLinkString fileText =>
        on_modify file transcription fileLinkString fileText w
    | AwaitCreateBinary sidecar data => on_createBinary sidecar data w
    | Rejected error => on_rejected file error w
    | Done => (Done, w)
    end in
  ({| fileToTranscribe := file; stage_of := s |}, w').

(** The event loop runs chain [i] for one step. *)
Definition step_at (i : nat) (p : list task * World V) : list task * World V :=
  match p.1 !! i with
  | None => p
  | Some t => let '(t', w') := step t p.2 in (<[i := t']> p.1, w')
  end.

(** A schedule is the order in which the event loop picks the chains. *)
Definition run (schedule : list nat) (p : list task * World V)
  : list task * World V :=
  foldl (λ p i, step_at i p) p schedule.

(** The second [for] loop: every file is dispatched, nothing is awaited.
    The synchronous start of [getTranscriptionWhisperASR] draws the
    boundary. *)
Fixpoint dispatch (filesToTranscribe : list TFile) (w : World V)
  : list task * World V :=
  match filesToTranscribe with
  | [] => ([], w)
  | file :: rest =>
      let w1 := debug_log settings (lit "Transcribing " ++ path file) w in
      let '(rnd, v) := randomString 16 (env w1) in
      let '(pool, w2) := dispatch rest (set_env v w1) in
      ({| fileToTranscribe := file; stage_of := AwaitReadBinary rnd |} :: pool, w2)
  end.

(** The synchronous part of [editorCallback]. *)
Definition editorCallback (w : World V) : list task * World V :=
  let markdownFilePath := path view_file in
  let w := debug_log settings
             (lit "Transcribing all audio files in " ++ markdownFilePath) w in
  let w := new_Notice (lit "Transcribing all audio files in " ++ name view_file)
             (Some 3000) w in
  let filesLinked := resolvedLinks_keys markdownFilePath (env w) in
  let '(filesToTranscribe, w) := collect settings filesLinked [] w in
  dispatch filesToTranscribe w.

End Orchestrator.

(** ** Notions the properties are stated with *)

(** [sub] occurs in [s] at index [i]. *)
Definition occurs_at (sub s : jsstring) (i : nat) : Prop :=
  ∃ before after, s = before ++ sub ++ after ∧ length before = i.

Definition first_occurrence (sub s : jsstring) (i : nat) : Prop :=
  occurs_at sub s i ∧ ∀ j, occurs_at sub s j → (i ≤ j)%nat.

Definition last_occurrence (sub s : jsstring) (i : nat) : Prop :=
  occurs_at sub s i ∧ ∀ j, occurs_at sub s j → (j ≤ i)%nat.

(** [inserted] was put into [old] at index [i], nothing else changed. *)
Definition inserted_at (old inserted new : jsstring) (i : nat) : Prop :=
  (i ≤ length old)%nat ∧ new = take i old ++ inserted ++ drop i old.

(** The substring after the final [c]; none when [c] does not occur. *)
Fixpoint after_final (c : N) (s : jsstring) : option jsstring :=
  match s with
  | [] => None
  | x :: s' =>
      match after_final c s' with
      | Some r => Some r
      | None => if x =? c then Some s' else None
      end
  end.

(** The extension of a link: the substring after its final ['.']. *)
Definition extension (linkedFilePath : jsstring) : option jsstring :=
  after_final 46 linkedFilePath.

(** The extension is, case-sensitively, one of the comma-separated members
    of the setting. *)
Definition allowed (allowedExtensions linkedFilePath : jsstring) : bool :=
  match extension linkedFilePath with
  | Some ext => bool_decide (ext ∈ split 44 allowedExtensions)
  | None => false
  end.

(** The file behind a link, when the link resolves to a file. *)
Definition resolved_file {V} `{Host V} (v : V) (linkedFilePath : jsstring)
  : option TFile :=
  match vault_getAbstractFileByPath linkedFilePath v with
  | Some (AFile f) => Some f
  | _ => None
  end.

(** [s] does not begin with the second half of a surrogate pair. *)
Definition no_low_head (s : jsstring) : Prop :=
  match s with [] => True | d :: _ => is_low_surrogate d = false end.

(** [s] contains [sub]. *)
Definition contains (s sub : jsstring) : bool :=
  negb (indexOf s sub =? -1)%Z.

(** ** A host kept in memory, to run the plugin on sample vaults

    Text and binary files by path, the resolved links of every note, a
    server, and the strings [randomString] will return.  Link texts are
    file names, [createBinary] replaces a file that is already there. *)

Record MemVault := {
  mv_texts : gmap (list N) (list N);
  mv_binaries : gmap (list N) (list N);
  mv_links : gmap (list N) (list (list N));
  mv_server : RequestUrlParam → js_error + RequestUrlResponse;
  mv_entropy : list jsstring
}.

Definition file_at (p : jsstring) : TFile :=
  let segs := split 47 p in
  {| path := p;
     name := default p (last segs);
     parent := {| folder_path :=
                    match segs with
                    | [] | [_] => lit "/"
                    | _ => join (lit "/") (removelast segs)
                    end |} |}.

Definition mv_set_texts (m : gmap (list N) (list N)) (v : MemVault) : MemVault :=
  {| mv_texts := m; mv_binaries := mv_binaries v; mv_links := mv_links v;
     mv_server := mv_server v; mv_entropy := mv_entropy v |}.
Definition mv_set_binaries (m : gmap (list N) (list N)) (v : MemVault) : MemVault :=
  {| mv_texts := mv_texts v; mv_binaries := m; mv_links := mv_links v;
     mv_server := mv_server v; mv_entropy := mv_entropy v |}.
Definition mv_set_entropy (e : list jsstring) (v : MemVault) : MemVault :=
  {| mv_texts := mv_texts v; mv_binaries := mv_binaries v; mv_links := mv_links v;
     mv_server := mv_server v; mv_entropy := e |}.

Definition not_found : js_error := lit "Error: ENOENT".

#[export] Instance mem_host : Host MemVault := {|
  vault_read f v :=
    match mv_texts v !! path f with Some t => inr t | None => inl not_found end;
  vault_readBinary f v :=
    match mv_binaries v !! path f with Some b => inr b | None => inl not_found end;
  vault_modify f data v :=
    match mv_texts v !! path f with
    | Some _ => inr (mv_set_texts (<[path f := data]> (mv_texts v)) v)
    | None => inl not_found
    end;
  vault_createBinary p data v :=
    inr (mv_set_binaries (<[p := data]> (mv_binaries v)) v);
  vault_getAbstractFileByPath p v :=
    match mv_texts v !! p, mv_binaries v !! p with
    | None, None => None
    | _, _ => Some (AFile (file_at p))
    end;
  resolvedLinks_keys p v := default [] (mv_links v !! p);
  fileToLinktext f _ _ := name f;
  requestUrl request v := mv_server v request;
  randomString n v :=
    match mv_entropy v with
    | r :: rest => (r, mv_set_entropy rest v)
    | [] => (replicate (N.to_nat n) 48, v)
    end
|}.

(** A segment with the given text, every number zero. *)
Definition segment_of (text : jsstring) : TranscriptionSegment := {|
  seg_id := 0%float; seg_seek := 0%float; seg_start := 0%float;
  seg_end := 0%float; seg_text := text; seg_tokens := [];
  seg_temperature := 0%float; seg_avg_logprob := 0%float;
  seg_compression_ratio := 0%float; seg_no_speech_prob := 0%float
|}.

Definition hello_world : TranscriptionResult := {|
  tr_text := lit "Hello world ";
  tr_segments := [segment_of (lit "Hello"); segment_of (lit " world ")];
  tr_language := lit "en"
|}.

(** A vault with the note [note.md], which embeds [audio/Recording.webm]. *)
Definition sample_vault (note_text : jsstring)
  (server : RequestUrlParam → js_error + RequestUrlResponse) : MemVault := {|
  mv_texts := {[ lit "note.md" := note_text ]};
  mv_binaries := {[ lit "audio/Recording.webm" := [26; 69; 223; 163] ]};
  mv_links := {[ lit "note.md" := [lit "audio/Recording.webm"] ]};
  mv_server := server;
  mv_entropy := [lit "k3J9xQ2mZp7LwT1a"]
|}.

Definition sample_world (note_text : jsstring)
  (server : RequestUrlParam → js_error + RequestUrlResponse) : World MemVault :=
  mkWorld (sample_vault note_text server) [] [].

(** A server that answers every request with [hello_world]. *)
Definition hello_server : RequestUrlParam → js_error + RequestUrlResponse :=
  λ _, inr {| response_json := inr hello_world |}.

Definition note_md : TFile := file_at (lit "note.md").
Definition recording_webm : TFile := file_at (lit "audio/Recording.webm").

(** A vault whose root holds a file named [mp3], without an extension,
    linked from the note. *)
Definition vault_with_plain_file : MemVault := {|
  mv_texts := {[ lit "note.md" := lit "![[mp3]]" ]};
  mv_binaries := {[ lit "mp3" := [73; 68; 51] ]};
  mv_links := {[ lit "note.md" := [lit "mp3"] ]};
  mv_server := hello_server;
  mv_entropy := []
|}.

(** ** Failure of one chain among the others *)

(** The stages of a chain whose transcription has not succeeded: still
    reading or requesting, rejected and waiting for [catch], or finished. *)
Definition unsuccessful (s : stage) : bool :=
  match s with
  | AwaitReadBinary _ | AwaitResponse _ | Rejected _ | Done => true
  | Fulfilled _ | AwaitRead _ | AwaitModify _ _ _ | AwaitCreateBinary _ _ => false
  end.

(** Two states of the pool that differ in chain [F], in the notices and in
    the console only. *)
Definition same_but {V} (F : nat) (p1 p2 : list task * World V) : Prop :=
  env p1.2 = env p2.2 ∧ ∀ G, G ≠ F → p1.1 !! G = p2.1 !! G.

Section Isolation.
Context {V : Type} `{Host V}.
Variable settings : TranscriptionSettings.
Variable view_file : TFile.
Variable JSON_stringify : TranscriptionResult → jsstring.

(** Chain [F] exists and its transcription never succeeds while
    [schedule] runs from [p]. *)
Fixpoint fails_throughout (F : nat) (schedule : list nat)
  (p : list task * World V) : bool :=
  match p.1 !! F with
  | Some t => unsuccessful (stage_of t)
  | None => false
  end
  && match schedule with
     | [] => true
     | i :: rest =>
         fails_throughout F rest (step_at settings view_file JSON_stringify i p)
     end.

End Isolation.

(** A server that refuses bodies of more than 512 octets. *)
Definition small_server : RequestUrlParam → js_error + RequestUrlResponse :=
  λ request,
    if (length (body request) <=? 512)%nat
    then inr {| response_json := inr hello_world |}
    else inl (lit "Error: Request failed, status 413").

(** A note that embeds a long recording and a short one. *)
Definition two_recordings : World MemVault :=
  mkWorld
    {| mv_texts := {[ lit "note.md" := lit "![[long.mp3]] ![[Recording.webm]]" ]};
       mv_binaries := {[ lit "audio/long.mp3" := replicate 600 85;
                         lit "audio/Recording.webm" := [26; 69; 223; 163] ]};
       mv_links := {[ lit "note.md" :=
                        [lit "audio/long.mp3"; lit "audio/Recording.webm"] ]};
       mv_server := small_server;
       mv_entropy := [lit "k3J9xQ2mZp7LwT1a"; lit "Yb0sE5uHn8dRc4Vg"] |}
    [] [].

(** A serializer that keeps the transcript's text only; it stands for
    [JSON.stringify] where a sample run needs one. *)
Definition text_only (transcription : TranscriptionResult) : jsstring :=
  lit "{" ++ dq ++ lit "text" ++ dq ++ lit ":" ++ dq ++ tr_text transcription
  ++ dq ++ lit "}".

(** ** Measures on chains and pools *)

(** How many steps a chain in stage [s] can still take, at most. *)
Definition rank (s : stage) : nat :=
  match s with
  | AwaitReadBinary _ => 7
  | AwaitResponse _ => 6
  | Fulfilled _ => 5
  | AwaitRead _ => 4
  | AwaitModify _ _ _ => 3
  | AwaitCreateBinary _ _ => 2
  | Rejected _ => 1
  | Done => 0
  end.

Definition is_done (s : stage) : bool :=
  match s with Done => true | _ => false end.

(** The chains of a pool that have not finished. *)
Definition pending (pool : list task) : nat :=
  length (filter (λ t, is_done (stage_of t) = false) pool).

(** How often the schedule picks chain [i]. *)
Definition picks (i : nat) (schedule : list nat) : nat :=
  length (filter (λ j, j = i) schedule).

(** The default settings with debug mode switched on. *)
Definition DEBUG_SETTINGS : TranscriptionSettings := {|
  timestamps := timestamps DEFAULT_SETTINGS;
  transcribeFileExtensions := transcribeFileExtensions DEFAULT_SETTINGS;
  whisperASRUrl := whisperASRUrl DEFAULT_SETTINGS;
  debug := true
|}.

(** ** [main.ts]: loading, changing and saving the settings

    The settings object at run time is a plain object; a key may be
    missing from what [loadData] returns ([data.json] written by an older
    version, or edited by hand), and [loadData] returns [null] when nothing
    was saved. *)

Record SettingsObject := {
  o_timestamps : option bool;
  o_transcribeFileExtensions : option (list N);
  o_whisperASRUrl : option (list N);
  o_debug : option bool
}.

(** The object literal [{}]. *)
Definition empty_object : SettingsObject :=
  {| o_timestamps := None; o_transcribeFileExtensions := None;
     o_whisperASRUrl := None; o_debug := None |}.

(** A settings value as an object with all four keys. *)
Definition object_of (s : TranscriptionSettings) : SettingsObject :=
  {| o_timestamps := Some (timestamps s);
     o_transcribeFileExtensions := Some (transcribeFileExtensions s);
     o_whisperASRUrl := Some (whisperASRUrl s);
     o_debug := Some (debug s) |}.

(** One source of [Object.assign]: its own keys overwrite the target's, a
    [null] source is skipped. *)
Definition assign_from (target : SettingsObject) (source : option SettingsObject)
  : SettingsObject :=
  match source with
  | None => target
  | Some o =>
      {| o_timestamps :=
           match o_timestamps o with Some v => Some v | None => o_timestamps target end;
         o_transcribeFileExtensions :=
           match o_transcribeFileExtensions o with
           | Some v => Some v
           | None => o_transcribeFileExtensions target
           end;
         o_whisperASRUrl :=
           match o_whisperASRUrl o with
           | Some v => Some v
           | None => o_whisperASRUrl target
           end;
         o_debug :=
           match o_debug o with Some v => Some v | None => o_debug target end |}
  end.

(** The plugin's [settings] and the content of its [data.json]. *)
Record PluginData := {
  settings_object : SettingsObject;
  data_json : option SettingsObject
}.

(** [loadSettings]: [Object.assign({}, DEFAULT_SETTINGS, await this.loadData())] *)
Definition loadSettings (p : PluginData) : PluginData :=
  {| settings_object :=
       assign_from (assign_from empty_object (Some (object_of DEFAULT_SETTINGS)))
         (data_json p);
     data_json := data_json p |}.

(** [saveSettings]: [this.saveData(this.settings)] *)
Definition saveSettings (p : PluginData) : PluginData :=
  {| settings_object := settings_object p;
     data_json := Some (settings_object p) |}.

(** The four [onChange] callbacks of the settings tab: assign the key, then
    save. *)
Definition onChange_timestamps (value : bool) (p : PluginData) : PluginData :=
  let s := settings_object p in
  saveSettings
    {| settings_object :=
         {| o_timestamps := Some value;
            o_transcribeFileExtensions := o_transcribeFileExtensions s;
            o_whisperASRUrl := o_whisperASRUrl s; o_debug := o_debug s |};
       data_json := data_json p |}.
Definition onChange_whisperASRUrl (value : jsstring) (p : PluginData) : PluginData :=
  let s := settings_object p in
  saveSettings
    {| settings_object :=
         {| o_timestamps := o_timestamps s;
            o_transcribeFileExtensions := o_transcribeFileExtensions s;
            o_whisperASRUrl := Some value; o_debug := o_debug s |};
       data_json := data_json p |}.
Definition onChange_transcribeFileExtensions (value : jsstring) (p : PluginData)
  : PluginData :=
  let s := settings_object p in
  saveSettings
    {| settings_object :=
         {| o_timestamps := o_timestamps s;
            o_transcribeFileExtensions := Some value;
            o_whisperASRUrl := o_whisperASRUrl s; o_debug := o_debug s |};
       data_json := data_json p |}.
Definition onChange_debug (value : bool) (p : PluginData) : PluginData :=
  let s := settings_object p in
  saveSettings
    {| settings_object :=
         {| o_timestamps := o_timestamps s;
            o_transcribeFileExtensions := o_transcribeFileExtensions s;
            o_whisperASRUrl := o_whisperASRUrl s; o_debug := Some value |};
       data_json := data_json p |}.

(** One edit in the settings tab. *)
Inductive setting_change :=
| SetTimestamps (value : bool)
| SetWhisperASRUrl (value : list N)
| SetTranscribeFileExtensions (value : list N)
| SetDebug (value : bool).

Definition onChange (c : setting_change) (p : PluginData) : PluginData :=
  match c with
  | SetTimestamps v => onChange_timestamps v p
  | SetWhisperASRUrl v => onChange_whisperASRUrl v p
  | SetTranscribeFileExtensions v => onChange_transcribeFileExtensions v p
  | SetDebug v => onChange_debug v p
  end.

(** A sample: the settings a user once saved with only two of the keys. *)
Definition old_data_json : SettingsObject :=
  {| o_timestamps := None; o_transcribeFileExtensions := Some (lit "m4a,ogg");
     o_whisperASRUrl := None; o_debug := Some true |}.

(** The host kept in memory, with a vault that refuses to modify notes
    ([fail_modify]) or to create files ([fail_create]). *)
Definition refusing_host (fail_modify fail_create : bool) : Host MemVault := {|
  vault_read := vault_read (Host := mem_host);
  vault_readBinary := vault_readBinary (Host := mem_host);
  vault_modify f data v :=
    if fail_modify then inl (lit "Error: EACCES")
    else vault_modify (Host := mem_host) f data v;
  vault_createBinary p data v :=
    if fail_create then inl (lit "Error: File already exists.")
    else vault_createBinary (Host := mem_host) p data v;
  vault_getAbstractFileByPath := vault_getAbstractFileByPath (Host := mem_host);
  resolvedLinks_keys := resolvedLinks_keys (Host := mem_host);
  fileToLinktext := fileToLinktext (Host := mem_host);
  requestUrl := requestUrl (Host := mem_host);
  randomString := randomString (Host := mem_host)
|}.

(** A server that is down. *)
Definition down_server : RequestUrlParam → js_error + RequestUrlResponse :=
  λ _, inl (lit "Error: net::ERR_CONNECTION_REFUSED").

(** A chain of [file] in stage [s]. *)
Definition chain (file : TFile) (s : stage) : task :=
  {| fileToTranscribe := file; stage_of := s |}.

(** The key a change assigns holds the new value in object [o]. *)
Definition holds (c : setting_change) (o : SettingsObject) : Prop :=
  match c with
  | SetTimestamps v => o_timestamps o = Some v
  | SetWhisperASRUrl v => o_whisperASRUrl o = Some v
  | SetTranscribeFileExtensions v => o_transcribeFileExtensions o = Some v
  | SetDebug v => o_debug o = Some v
  end.

(** Settings [s] with the timestamps switch set to [b]. *)
Definition with_timestamps (b : bool) (s : TranscriptionSettings)
  : TranscriptionSettings :=
  {| timestamps := b;
     transcribeFileExtensions := transcribeFileExtensions s;
     whisperASRUrl := whisperASRUrl s;
     debug := debug s |}.

(** * Properties *)

(** ** The JavaScript built-ins on sample inputs *)

Example split_path : split 46 (lit "a/b.c.webm") = [lit "a/b"; lit "c"; lit "webm"].
Proof. reflexivity. Qed.
Example split_nodot : split 46 (lit "note") = [lit "note"].
Proof. reflexivity. Qed.
Example split_empty : split 46 [] = [[]].
Proof. reflexivity. Qed.
Example indexOf_first : indexOf (lit "xx[[a]]yy[[a]]") (lit "[[a]]") = 2%Z.
Proof. reflexivity. Qed.
Example indexOf_none : indexOf (lit "xyz") (lit "[[a]]") = (-1)%Z.
Proof. reflexivity. Qed.
Example slice_neg : slice (lit "abcdef") (-2) None = lit "ef".
Proof. reflexivity. Qed.
Example slice_mid : slice (lit "abcdef") 1 (Some 3%Z) = lit "bc".
Proof. reflexivity. Qed.
Example trim_world : trim (lit " world ") = lit "world".
Proof. reflexivity. Qed.
Example utf8_e_acute : utf8 [0xE9] = [0xC3; 0xA9].
Proof. reflexivity. Qed.
Example utf8_pair : utf8 [0xD83D; 0xDE00] = [0xF0; 0x9F; 0x98; 0x80].
Proof. reflexivity. Qed.
Example utf8_lone : utf8 [0xD83D; 0x41] = [0xEF; 0xBF; 0xBD; 0x41].
Proof. reflexivity. Qed.


(** ** The multipart request of [getTranscriptionWhisperASR] *)

Section Utf8.

Lemma utf8_cons_ascii c s : c < 0x80 → utf8 (c :: s) = c :: utf8 s.
Proof.
  intros Hc. cbn [utf8].
  assert (is_high_surrogate c = false) as ->.
  { unfold is_high_surrogate. apply andb_false_iff. left. apply N.leb_gt. lia. }
  assert (is_low_surrogate c = false) as ->.
  { unfold is_low_surrogate. apply andb_false_iff. left. apply N.leb_gt. lia. }
  unfold utf8_scalar. apply N.ltb_lt in Hc. now rewrite Hc.
Qed.

Lemma utf8_ascii_app a s : Forall (λ c, c < 0x80) a → utf8 (a ++ s) = a ++ utf8 s.
Proof.
  induction 1 as [|c a Hc _ IH]; [done|].
  cbn [app]. rewrite utf8_cons_ascii by done. now rewrite IH.
Qed.

(** Encoding distributes over a concatenation that does not cut a
    surrogate pair in two. *)
Lemma utf8_app_bounded n : ∀ x y,
  (length x ≤ n)%nat → no_low_head y → utf8 (x ++ y) = utf8 x ++ utf8 y.
Proof.
  induction n as [|n IH]; intros x y Hlen Hy.
  { destruct x; [done | cbn in Hlen; lia]. }
  destruct x as [|c x]; [done|].
  cbn [app utf8]. cbn [length] in Hlen.
  destruct (is_high_surrogate c).
  - destruct x as [|d x].
    + cbn [app]. destruct y as [|d y]; [by rewrite app_nil_r|].
      cbn in Hy. by rewrite Hy.
    + cbn [app]. cbn [length] in Hlen. destruct (is_low_surrogate d) eqn:Hd.
      * rewrite IH by (done || lia). by rewrite app_assoc.
      * rewrite <- app_assoc. f_equal.
        change (d :: x ++ y) with ((d :: x) ++ y).
        apply IH; [cbn; lia | done].
  - destruct (is_low_surrogate c);
      rewrite <- app_assoc; f_equal; apply IH; (done || lia).
Qed.

Lemma utf8_app x y : no_low_head y → utf8 (x ++ y) = utf8 x ++ utf8 y.
Proof. by apply (utf8_app_bounded (length x)). Qed.

End Utf8.

(** The request that is sent carries the bytes [readBinary] returned. *)
Lemma request_carries_file_bytes {V : Type} `{Host V}
  (settings : TranscriptionSettings) (file : TFile) (rnd : jsstring)
  (w : World V) (data : bytes) :
  vault_readBinary file (env w) = inr data →
  (on_readBinary settings file rnd w).1
  = AwaitResponse (options rnd settings data).
Proof. intros Hdata. unfold on_readBinary. by rewrite Hdata. Qed.

Lemma boundary_param_content_type boundary :
  boundary_param (lit "multipart/form-data; boundary=" ++ boundary) = Some boundary.
Proof. reflexivity. Qed.

(** C1.  Whatever bytes [B] were read from the audio file and whatever
    string the boundary generator returned, the body handed to
    [requestUrl] is: the delimiter line, the Content-Disposition line of
    field [audio_file] with file name [blob], the Content-Type line and a
    blank line; then [B] itself; then the line break, the delimiter and two
    hyphens.  The delimiter is two hyphens followed by the [boundary]
    parameter of the request's content type, at both places. *)
Theorem multipart_body_frames_bytes :
  ∀ (rnd : jsstring) (settings : TranscriptionSettings) (B : bytes),
    let request := options rnd settings B in
    ∃ boundary,
      boundary_param (contentType request) = Some boundary ∧
      let delimiter := utf8 (lit "--" ++ boundary) in
      body request
      = (delimiter ++ [13; 10] ++ part_headers)
          ++ B
          ++ ([13; 10] ++ delimiter ++ ascii_bytes "--").
Proof.
  intros rnd settings B request.
  exists (lit "----" ++ randomBoundaryString rnd). split.
  - subst request. cbn [options contentType].
    change (lit "multipart/form-data; boundary=----" ++ randomBoundaryString rnd)
      with (lit "multipart/form-data; boundary="
              ++ lit "----" ++ randomBoundaryString rnd).
    apply boundary_param_content_type.
  - cbn zeta. subst request. cbn [options body]. unfold concatenated.
    assert (Hd : utf8 (lit "--" ++ lit "----" ++ randomBoundaryString rnd)
                 = ascii_bytes "------Boundary" ++ utf8 rnd).
    { unfold randomBoundaryString.
      change (lit "--" ++ lit "----" ++ lit "Boundary" ++ rnd)
        with (ascii_bytes "------Boundary" ++ rnd).
      apply utf8_ascii_app. repeat constructor. }
    rewrite Hd. f_equal; [|f_equal].
    + unfold pre_string, randomBoundaryString.
      set (rest := crlf ++ _).
      change (lit "------" ++ (lit "Boundary" ++ rnd) ++ rest)
        with (ascii_bytes "------Boundary" ++ (rnd ++ rest)).
      rewrite utf8_ascii_app by repeat constructor.
      rewrite utf8_app by reflexivity.
      rewrite <- !app_assoc. do 2 f_equal.
    + unfold post_string, randomBoundaryString.
      change (crlf ++ lit "------" ++ (lit "Boundary" ++ rnd) ++ lit "--")
        with ((crlf ++ ascii_bytes "------Boundary") ++ (rnd ++ lit "--")).
      rewrite utf8_ascii_app by repeat constructor.
      rewrite utf8_app by reflexivity.
      rewrite <- !app_assoc. reflexivity.
Qed.

(** ** [indexOf] and [slice] *)

Lemma starts_with_app (p s : jsstring) :
  starts_with p s = true ↔ ∃ rest, s = p ++ rest.
Proof.
  revert s. induction p as [|a p IH]; intros s; cbn.
  - split; [eauto | done].
  - destruct s as [|b s]; [split; [done | by intros [? ?]]|].
    rewrite andb_true_iff, N.eqb_eq, IH. split.
    + intros [-> [rest ->]]. eauto.
    + intros [rest [= -> ->]]. eauto.
Qed.

Lemma occurs_at_0 (sub s : jsstring) :
  occurs_at sub s 0 ↔ starts_with sub s = true.
Proof.
  rewrite starts_with_app. split.
  - intros ([|x before] & after & -> & Hlen); [eauto | done].
  - intros [rest ->]. by exists [], rest.
Qed.

Lemma occurs_at_S (sub : jsstring) c s j :
  occurs_at sub (c :: s) (S j) ↔ occurs_at sub s j.
Proof.
  split.
  - intros ([|x before] & after & Heq & Hlen); [done|].
    injection Heq as -> ->. injection Hlen as <-. by exists before, after.
  - intros (before & after & -> & <-). by exists (c :: before), after.
Qed.

Lemma occurs_at_bound (sub s : jsstring) j :
  occurs_at sub s j → (j + length sub ≤ length s)%nat.
Proof. intros (before & after & -> & <-). rewrite !length_app. lia. Qed.

(** [indexOf] finds the first occurrence, and answers [-1] only when there
    is none. *)
Lemma indexOf_from_spec (sub : jsstring) : ∀ s i,
  (0 ≤ i)%Z →
  (indexOf_from i s sub = (-1)%Z ∧ ∀ j, ¬ occurs_at sub s j)
  ∨ (∃ k, indexOf_from i s sub = (i + Z.of_nat k)%Z ∧ first_occurrence sub s k).
Proof.
  induction s as [|c s IH]; intros i Hi; cbn [indexOf_from];
    destruct (starts_with sub _) eqn:Hsw.
  - right. exists 0%nat. split; [lia|].
    split; [by apply occurs_at_0 | intros; lia].
  - left. split; [done|]. intros j Hj.
    assert (j = 0)%nat as -> by (apply occurs_at_bound in Hj; cbn in Hj; lia).
    apply occurs_at_0 in Hj. congruence.
  - right. exists 0%nat. split; [lia|].
    split; [by apply occurs_at_0 | intros; lia].
  - destruct (IH (i + 1)%Z ltac:(lia)) as [[Hnone Hno] | (k & Hk & Hocc & Hmin)].
    + left. split; [done|]. intros [|j] Hj.
      * apply occurs_at_0 in Hj. congruence.
      * apply occurs_at_S in Hj. by apply (Hno j).
    + right. exists (S k). split; [lia|]. split.
      * by apply occurs_at_S.
      * intros [|j] Hj.
        -- apply occurs_at_0 in Hj. congruence.
        -- apply occurs_at_S in Hj. apply Hmin in Hj. lia.
Qed.

Lemma indexOf_spec (s sub : jsstring) :
  (indexOf s sub = (-1)%Z ∧ ∀ j, ¬ occurs_at sub s j)
  ∨ (∃ k, indexOf s sub = Z.of_nat k ∧ first_occurrence sub s k).
Proof.
  unfold indexOf.
  destruct (indexOf_from_spec sub s 0 ltac:(lia)) as [?|(k & Hk & ?)];
    [by left | right; exists k; by rewrite Hk].
Qed.

Lemma contains_first_occurrence (s sub : jsstring) :
  contains s sub = true →
  ∃ k, indexOf s sub = Z.of_nat k ∧ first_occurrence sub s k.
Proof.
  unfold contains. rewrite negb_true_iff, Z.eqb_neq.
  by destruct (indexOf_spec s sub) as [[? _]|?].
Qed.

Lemma not_contains_no_occurrence (s sub : jsstring) :
  contains s sub = false ↔ indexOf s sub = (-1)%Z.
Proof. unfold contains. by rewrite negb_false_iff, Z.eqb_eq. Qed.

Lemma contains_occurs (s sub : jsstring) :
  contains s sub = true ↔ ∃ i, occurs_at sub s i.
Proof.
  split.
  - intros (k & _ & Hocc & _)%contains_first_occurrence. eauto.
  - intros [i Hi]. unfold contains. rewrite negb_true_iff, Z.eqb_neq.
    destruct (indexOf_spec s sub) as [[_ Hno]|(k & -> & _)]; [|lia].
    by destruct (Hno i).
Qed.

Lemma slice_prefix (s : jsstring) z :
  (0 ≤ z)%Z → slice s 0 (Some z) = take (Z.to_nat z) s.
Proof.
  intros Hz. unfold slice, rel_index.
  assert ((z <? 0)%Z = false) as -> by (apply Z.ltb_ge; lia).
  cbn [Z.ltb Z.compare]. rewrite (Z.min_l 0) by lia. cbn [Z.to_nat drop].
  rewrite Z.sub_0_r. destruct (decide (z ≤ Z.of_nat (length s))%Z).
  - by rewrite Z.min_l by lia.
  - rewrite Z.min_r by lia. rewrite Nat2Z.id.
    rewrite !take_ge; (done || lia).
Qed.

Lemma slice_suffix (s : jsstring) z :
  (0 ≤ z)%Z → slice s z None = drop (Z.to_nat z) s.
Proof.
  intros Hz. unfold slice, rel_index.
  assert ((z <? 0)%Z = false) as -> by (apply Z.ltb_ge; lia).
  destruct (decide (z ≤ Z.of_nat (length s))%Z).
  - rewrite Z.min_l by lia. apply take_ge. rewrite length_drop. lia.
  - rewrite Z.min_r by lia. rewrite Z.sub_diag, Nat2Z.id. cbn [Z.to_nat take].
    symmetry. apply drop_ge. lia.
Qed.

Lemma length_fileLinkStringTagged l :
  length (fileLinkStringTagged l) = (length l + 4)%nat.
Proof. unfold fileLinkStringTagged. rewrite !length_app. cbn. lia. Qed.

Lemma indexOf_lower_bound (s sub : jsstring) : (-1 ≤ indexOf s sub)%Z.
Proof.
  destruct (indexOf_spec s sub) as [[-> _]|(k & -> & _)]; lia.
Qed.

(** The text that [vault.modify] receives, in terms of [take] and [drop]:
    the index never is negative, because a citation has four brackets. *)
Lemma spliced_take_drop (fileText fileLinkString : jsstring) transcription :
  let i := Z.to_nat (startReplacementIndex fileText
                       (fileLinkStringTagged fileLinkString)) in
  spliced fileText fileLinkString transcription
  = take i fileText ++ (nl ++ segments transcription) ++ drop i fileText.
Proof.
  cbn zeta. unfold spliced.
  assert (0 ≤ startReplacementIndex fileText (fileLinkStringTagged fileLinkString))%Z.
  { unfold startReplacementIndex. rewrite length_fileLinkStringTagged.
    pose proof (indexOf_lower_bound fileText (fileLinkStringTagged fileLinkString)).
    lia. }
  cbn [join]. rewrite slice_prefix, slice_suffix by done. by rewrite !app_nil_l.
Qed.

(** ** The continuation: where the transcript goes *)

Section Splice.
Context {V : Type} `{Host V}.
Variable settings : TranscriptionSettings.
Variable view_file : TFile.

Lemma on_read_fulfilled file transcription (w : World V) fileText :
  vault_read view_file (env w) = inr fileText →
  on_read settings view_file file transcription w
  = (AwaitModify transcription (fileToLinktext file (path view_file) (env w))
       (spliced fileText (fileToLinktext file (path view_file) (env w)) transcription),
     debug_log settings (fileToLinktext file (path view_file) (env w)) w).
Proof. intros Hread. unfold on_read. by rewrite Hread. Qed.

Lemma notices_debug_log message (w : World V) :
  notices (debug_log settings message w) = notices w.
Proof. unfold debug_log. by destruct (debug settings). Qed.

Lemma env_debug_log message (w : World V) :
  env (debug_log settings message w) = env w.
Proof. unfold debug_log. by destruct (debug settings). Qed.

End Splice.

(** C2 (amended).  When the transcription of a reference has succeeded, the
    document text is read at that moment; if it contains the citation
    [[[linktext]]], the insertion point is immediately after the FIRST
    occurrence of the citation in the text just read, and the text handed
    to [vault.modify] is that text with the transcript inserted there. *)
Theorem insertion_after_first_citation :
  ∀ {V : Type} `{Host V} (settings : TranscriptionSettings)
    (view_file file : TFile) (transcription : TranscriptionResult)
    (w : World V) (fileText : jsstring),
    vault_read view_file (env w) = inr fileText →
    let fileLinkString := fileToLinktext file (path view_file) (env w) in
    let citation := fileLinkStringTagged fileLinkString in
    contains fileText citation = true →
    ∃ (i : nat) (newText : jsstring),
      first_occurrence citation fileText i ∧
      startReplacementIndex fileText citation = Z.of_nat (i + length citation) ∧
      (on_read settings view_file file transcription w).1
        = AwaitModify transcription fileLinkString newText ∧
      inserted_at fileText (nl ++ segments transcription) newText
        (i + length citation).
Proof.
  intros V HV settings view_file file transcription w fileText Hread
    fileLinkString citation Hin.
  destruct (contains_first_occurrence _ _ Hin) as (i & Hi & Hfirst).
  exists i, (spliced fileText fileLinkString transcription).
  assert (Hidx : startReplacementIndex fileText citation
                 = Z.of_nat (i + length citation)).
  { unfold startReplacementIndex. rewrite Hi. lia. }
  repeat split; try done.
  - apply Hfirst.
  - apply Hfirst.
  - by rewrite (on_read_fulfilled settings view_file file transcription w fileText).
  - destruct Hfirst as [Hocc _]. apply occurs_at_bound in Hocc. lia.
  - rewrite spliced_take_drop. fold citation. rewrite Hidx. by rewrite Nat2Z.id.
Qed.

Lemma insertion_after_first_citation_witness :
  ∃ (i : nat) (newText : jsstring),
    first_occurrence (lit "[[Recording.webm]]")
      (lit "One ![[Recording.webm]] two ![[Recording.webm]]") i ∧
    startReplacementIndex (lit "One ![[Recording.webm]] two ![[Recording.webm]]")
      (lit "[[Recording.webm]]") = Z.of_nat (i + 18) ∧
    (on_read DEFAULT_SETTINGS note_md recording_webm hello_world
       (sample_world (lit "One ![[Recording.webm]] two ![[Recording.webm]]")
          hello_server)).1
      = AwaitModify hello_world (lit "Recording.webm") newText ∧
    inserted_at (lit "One ![[Recording.webm]] two ![[Recording.webm]]")
      (nl ++ segments hello_world) newText (i + 18).
Proof.
  exact (insertion_after_first_citation DEFAULT_SETTINGS note_md recording_webm
           hello_world
           (sample_world (lit "One ![[Recording.webm]] two ![[Recording.webm]]")
              hello_server)
           (lit "One ![[Recording.webm]] two ![[Recording.webm]]")
           eq_refl eq_refl).
Defined.

(** C2 as it was stated fails: with the citation twice in the document the
    last occurrence starts at index 29, and the insertion point is not
    immediately after it. *)
Lemma insertion_not_after_last_citation :
  last_occurrence (lit "[[Recording.webm]]")
    (lit "One ![[Recording.webm]] two ![[Recording.webm]]") 29
  ∧ startReplacementIndex
      (lit "One ![[Recording.webm]] two ![[Recording.webm]]")
      (lit "[[Recording.webm]]")
    ≠ Z.of_nat (29 + length (lit "[[Recording.webm]]")).
Proof.
  split; [split|done].
  - by exists (lit "One ![[Recording.webm]] two !"), [].
  - intros j Hj. apply occurs_at_bound in Hj. cbn in Hj. lia.
Qed.

(** Two segments are joined by one newline, each trimmed on its own. *)
Lemma segments_two transcription s1 s2 :
  tr_segments transcription = [s1; s2] →
  segments transcription = trim (seg_text s1) ++ nl ++ trim (seg_text s2).
Proof. intros Hs. unfold segments. by rewrite Hs. Qed.

(** C7 (amended).  For the segment list [{text:"Hello"}, {text:" world "}]
    the text inserted immediately after the citation (its first occurrence
    in the text just read) is exactly "\nHello\nworld": a newline, then
    the segments' texts, each trimmed, joined by single newlines. *)
Theorem inserted_text_hello_world :
  ∀ {V : Type} `{Host V} (settings : TranscriptionSettings)
    (view_file file : TFile) (transcription : TranscriptionResult)
    (s1 s2 : TranscriptionSegment) (w : World V) (fileText : jsstring),
    tr_segments transcription = [s1; s2] →
    seg_text s1 = lit "Hello" →
    seg_text s2 = lit " world " →
    vault_read view_file (env w) = inr fileText →
    let fileLinkString := fileToLinktext file (path view_file) (env w) in
    let citation := fileLinkStringTagged fileLinkString in
    contains fileText citation = true →
    ∃ before after : jsstring,
      fileText = before ++ citation ++ after ∧
      first_occurrence citation fileText (length before) ∧
      (on_read settings view_file file transcription w).1
        = AwaitModify transcription fileLinkString
            (before ++ citation
               ++ ([10] ++ lit "Hello" ++ [10] ++ lit "world")
               ++ after).
Proof.
  intros V HV settings view_file file transcription s1 s2 w fileText
    Hsegs Hs1 Hs2 Hread fileLinkString citation Hin.
  destruct (contains_first_occurrence _ _ Hin) as (i & Hi & Hfirst).
  pose proof Hfirst as [(before & after & Heq & Hlen) _].
  exists before, after. subst i. repeat split; try done; try apply Hfirst.
  rewrite (on_read_fulfilled settings view_file file transcription w fileText Hread).
  cbn [fst]. f_equal. fold fileLinkString. rewrite spliced_take_drop.
  fold citation. unfold startReplacementIndex. rewrite Hi.
  replace (Z.to_nat (Z.of_nat (length before) + Z.of_nat (length citation)))
    with (length (before ++ citation)) by (rewrite length_app; lia).
  rewrite (segments_two _ _ _ Hsegs), Hs1, Hs2.
  rewrite Heq at 1 2. rewrite (app_assoc before citation after).
  rewrite take_app_length, drop_app_length. by rewrite <- !app_assoc.
Qed.

Lemma inserted_text_hello_world_witness :
  ∃ before after : jsstring,
    lit "See ![[Recording.webm]] here" = before ++ lit "[[Recording.webm]]" ++ after ∧
    first_occurrence (lit "[[Recording.webm]]") (lit "See ![[Recording.webm]] here")
      (length before) ∧
    (on_read DEFAULT_SETTINGS note_md recording_webm hello_world
       (sample_world (lit "See ![[Recording.webm]] here") hello_server)).1
      = AwaitModify hello_world (lit "Recording.webm")
          (before ++ lit "[[Recording.webm]]"
             ++ ([10] ++ lit "Hello" ++ [10] ++ lit "world")
             ++ after).
Proof.
  exact (inserted_text_hello_world DEFAULT_SETTINGS note_md recording_webm
           hello_world (segment_of (lit "Hello")) (segment_of (lit " world "))
           (sample_world (lit "See ![[Recording.webm]] here") hello_server)
           (lit "See ![[Recording.webm]] here")
           eq_refl eq_refl eq_refl eq_refl eq_refl).
Defined.

(** C7 as it was stated fails: what follows the citation in the written
    text starts with a newline, it is not "Hello\nworld" alone. *)
Lemma inserted_text_starts_with_newline :
  (on_read DEFAULT_SETTINGS note_md recording_webm hello_world
     (sample_world (lit "![[Recording.webm]]") hello_server)).1
  = AwaitModify hello_world (lit "Recording.webm")
      (lit "![[Recording.webm]]" ++ [10] ++ lit "Hello" ++ [10] ++ lit "world")
  ∧ lit "![[Recording.webm]]" ++ [10] ++ lit "Hello" ++ [10] ++ lit "world"
    ≠ lit "![[Recording.webm]]" ++ lit "Hello" ++ [10] ++ lit "world".
Proof. split; [reflexivity | discriminate]. Qed.

(** C10.  When the text read at completion time does not contain the
    citation, [indexOf] is [-1] and nothing checks it: the insertion index
    is the citation's length minus one, the chain goes on to
    [vault.modify] with the text cut at that index ([slice] stops at the end
    of a shorter text) and the transcript in between; the read step
    raises no error and shows no notice, and the modify step hands exactly
    that text to the vault. *)
Theorem missing_citation_still_written :
  ∀ {V : Type} `{Host V} (settings : TranscriptionSettings)
    (view_file file : TFile) (JSON_stringify : TranscriptionResult → jsstring)
    (transcription : TranscriptionResult) (w : World V) (fileText : jsstring),
    vault_read view_file (env w) = inr fileText →
    let fileLinkString := fileToLinktext file (path view_file) (env w) in
    let citation := fileLinkStringTagged fileLinkString in
    contains fileText citation = false →
    let at_ := (length citation - 1)%nat in
    let newText :=
      take at_ fileText ++ (nl ++ segments transcription) ++ drop at_ fileText in
    let w' := (on_read settings view_file file transcription w).2 in
    startReplacementIndex fileText citation = Z.of_nat at_ ∧
    (on_read settings view_file file transcription w).1
      = AwaitModify transcription fileLinkString newText ∧
    notices w' = notices w ∧ env w' = env w ∧
    ((at_ ≤ length fileText)%nat →
       inserted_at fileText (nl ++ segments transcription) newText at_) ∧
    (∀ v, vault_modify view_file newText (env w') = inr v →
       on_modify view_file JSON_stringify file transcription fileLinkString
         newText w'
       = (AwaitCreateBinary (sidecar_path file fileLinkString)
            (utf8 (JSON_stringify transcription)), set_env v w')).
Proof.
  intros V HV settings view_file file JSON_stringify transcription w fileText
    Hread fileLinkString citation Hnot at_ newText w'.
  apply not_contains_no_occurrence in Hnot.
  assert (Hidx : startReplacementIndex fileText citation = Z.of_nat at_).
  { unfold startReplacementIndex, at_. rewrite Hnot. subst citation.
    rewrite length_fileLinkStringTagged. lia. }
  subst w'.
  rewrite (on_read_fulfilled settings view_file file transcription w fileText Hread).
  cbn [fst snd]. fold fileLinkString.
  assert (Hnew : spliced fileText fileLinkString transcription = newText).
  { rewrite spliced_take_drop. fold citation. rewrite Hidx. by rewrite Nat2Z.id. }
  rewrite Hnew, notices_debug_log, env_debug_log.
  repeat split; try done.
  intros v Hv. unfold on_modify. rewrite env_debug_log. by rewrite Hv.
Qed.

Lemma missing_citation_still_written_witness :
  startReplacementIndex (lit "Nothing is embedded in this note.")
    (lit "[[Recording.webm]]") = 17%Z
  ∧ (on_read DEFAULT_SETTINGS note_md recording_webm hello_world
       (sample_world (lit "Nothing is embedded in this note.") hello_server)).1
    = AwaitModify hello_world (lit "Recording.webm")
        (lit "Nothing is embedd" ++ [10] ++ lit "Hello" ++ [10] ++ lit "world"
           ++ lit "ed in this note.").
Proof.
  pose proof (missing_citation_still_written DEFAULT_SETTINGS note_md
                recording_webm (λ _, []) hello_world
                (sample_world (lit "Nothing is embedded in this note.") hello_server)
                (lit "Nothing is embedded in this note.") eq_refl eq_refl)
    as (Hidx & Hstage & _).
  split; [exact Hidx | exact Hstage].
Defined.

(** ** The notification of a failure *)

(** C6 (amended).  For every failure of a reference's chain one notice is
    shown and nothing else happens.  In debug mode the message names the
    failing file and carries the error; without debug mode it is the one
    generic message pointing at debug mode, which names no file. *)
Theorem failure_notice :
  ∀ {V : Type} `{Host V} (settings : TranscriptionSettings) (file : TFile)
    (error : js_error) (w : World V),
    (on_rejected settings file error w).1 = Done ∧
    env (on_rejected settings file error w).2 = env w ∧
    ∃ message : jsstring,
      notices (on_rejected settings file error w).2
        = notices w ++ [(message, None)] ∧
      (debug settings = true →
         message = lit "Error transcribing file " ++ name file ++ lit ": " ++ error) ∧
      (debug settings = false →
         message = lit "Error transcribing file, enable debug mode to see more").
Proof.
  intros V HV settings file error w. split; [done|]. split; [done|].
  exists (error_message settings file error). split; [done|].
  unfold error_message. split; intros ->; done.
Qed.

(** C6 as it was stated fails: without debug mode the notice does not name
    the failing file. *)
Lemma failure_notice_generic_without_debug :
  notices (on_rejected DEFAULT_SETTINGS recording_webm
             (lit "Error: Request failed, status 500")
             (sample_world [] hello_server)).2
  = [(lit "Error transcribing file, enable debug mode to see more", None)]
  ∧ contains (lit "Error transcribing file, enable debug mode to see more")
      (name recording_webm) = false.
Proof. split; reflexivity. Qed.

(** ** [split(".").pop()] *)

Lemma split_after_final c (s : jsstring) :
  match after_final c s with
  | None => split c s = [s]
  | Some r => ∃ first rest, split c s = first :: rest ++ [r]
  end.
Proof.
  induction s as [|x s IH]; [done|].
  cbn [split after_final]. destruct (after_final c s) as [r|].
  - destruct IH as (first & rest & ->). destruct (x =? c).
    + by exists [], (first :: rest).
    + by exists (x :: first), rest.
  - rewrite IH. destruct (x =? c); [by exists [], [] | done].
Qed.

(** The popped piece is the substring after the final separator, and the
    whole string when there is no separator. *)
Lemma pop_split c (s : jsstring) :
  pop (split c s) = Some (default s (after_final c s)).
Proof.
  unfold pop. pose proof (split_after_final c s) as Hs.
  destruct (after_final c s) as [r|].
  - destruct Hs as (first & rest & ->).
    by rewrite app_comm_cons, last_snoc.
  - by rewrite Hs.
Qed.

Lemma after_final_app c (stem ext : jsstring) :
  c ∉ ext → after_final c (stem ++ c :: ext) = Some ext.
Proof.
  intros Hext.
  assert (Hnone : after_final c ext = None).
  { induction ext as [|x ext IH]; [done|]. cbn.
    rewrite IH by (intros ?; apply Hext; by right).
    destruct (N.eqb_spec x c) as [->|]; [|done]. exfalso. apply Hext. by left. }
  induction stem as [|x stem IH]; cbn.
  - by rewrite Hnone, N.eqb_refl.
  - by rewrite IH.
Qed.

Lemma after_final_is_Some c (s : jsstring) :
  c ∈ s → is_Some (after_final c s).
Proof.
  induction s as [|x s IH]; [by intros ?%elem_of_nil|].
  intros [Heq|Hin]%elem_of_cons; cbn.
  - rewrite <- Heq. destruct (after_final c s); [eauto|].
    rewrite N.eqb_refl. eauto.
  - destruct (IH Hin) as [r ->]. eauto.
Qed.

(** The name of the JSON file is what follows the final ['.'] of the link
    text, with [.json] appended: for a link text [stem.ext] it is
    [ext.json]. *)
Lemma fileLinkStringJson_extension (stem ext : jsstring) :
  46 ∉ ext →
  fileLinkStringJson (stem ++ lit "." ++ ext) = ext ++ lit ".json".
Proof.
  intros Hext. unfold fileLinkStringJson. rewrite pop_split.
  change (stem ++ lit "." ++ ext) with (stem ++ 46 :: ext).
  by rewrite after_final_app.
Qed.

(** C3 (the code departs from the claim).  For the audio file
    [audio/Recording.webm], whose link text is [Recording.webm], the JSON
    is written to [audio/webm.json]: the name is built from the extension,
    not from the stem [Recording]. *)
Theorem sidecar_named_after_extension :
  ∀ (JSON_stringify : TranscriptionResult → jsstring) (fileText : jsstring),
    fileToLinktext recording_webm (path note_md)
      (sample_vault fileText hello_server) = lit "Recording.webm"
    ∧ (on_modify note_md JSON_stringify recording_webm hello_world
         (lit "Recording.webm") fileText (sample_world fileText hello_server)).1
      = AwaitCreateBinary (lit "audio/webm.json") (utf8 (JSON_stringify hello_world))
    ∧ lit "audio/webm.json" ≠ lit "audio/Recording.json".
Proof. intros. split; [reflexivity | split; [reflexivity | discriminate]]. Qed.

(** ** The link collector *)

(** What the [if] of the loop tests, in terms of the substring after the
    final ['.']: a path without ['.'] counts as its own extension. *)
Lemma skipped_spec settings (linkedFilePath : jsstring) :
  skipped settings linkedFilePath
  = negb (bool_decide
            (default linkedFilePath (extension linkedFilePath)
               ∈ split 44 (transcribeFileExtensions settings))).
Proof.
  unfold skipped, linkedFileExtension, extension. by rewrite pop_split.
Qed.

Lemma skipped_dotted settings (linkedFilePath : jsstring) :
  46 ∈ linkedFilePath →
  skipped settings linkedFilePath
  = negb (allowed (transcribeFileExtensions settings) linkedFilePath).
Proof.
  intros Hdot. rewrite skipped_spec. unfold allowed, extension.
  by destruct (after_final_is_Some 46 _ Hdot) as [ext ->].
Qed.

Section CollectorFacts.
Context {V : Type} `{Host V}.
Variable settings : TranscriptionSettings.

(** The loop never touches the host, it only writes to the console. *)
Lemma collect_env (filesLinked : list jsstring) : ∀ acc (w : World V),
  env (collect settings filesLinked acc w).2 = env w
  ∧ notices (collect settings filesLinked acc w).2 = notices w.
Proof.
  induction filesLinked as [|p rest IH]; intros acc w; [done|].
  cbn [collect]. destruct (skipped settings p).
  - destruct (IH acc (debug_log settings
        (lit "Skipping " ++ p ++
         lit " because the file extension is not in the list of transcribable file extensions")
        w)) as [-> ->].
    by rewrite env_debug_log, notices_debug_log.
  - destruct (vault_getAbstractFileByPath p (env w)) as [[f|d]|];
      try apply IH;
      destruct (IH acc (debug_log settings (lit "Could not find file " ++ p) w))
        as [-> ->];
      by rewrite env_debug_log, notices_debug_log.
Qed.

(** The loop pushes, in order, the file of every link that is not skipped
    and resolves to a file. *)
Lemma collect_spec (filesLinked : list jsstring) : ∀ acc (w : World V),
  (collect settings filesLinked acc w).1
  = acc ++ omap (resolved_file (env w))
             (filter (λ p, skipped settings p = false) filesLinked).
Proof.
  induction filesLinked as [|p rest IH]; intros acc w.
  { cbn. by rewrite app_nil_r. }
  cbn [collect]. destruct (skipped settings p) eqn:Hskip.
  - rewrite IH, env_debug_log. by rewrite filter_cons_False by congruence.
  - rewrite filter_cons_True by done. cbn [omap list_omap].
    unfold resolved_file at 1.
    destruct (vault_getAbstractFileByPath p (env w)) as [[f|d]|];
      rewrite IH, ?env_debug_log; [by rewrite <- app_assoc | done | done].
Qed.

End CollectorFacts.

(** C4 (amended).  For every extension setting and every list of
    discovered links that all contain a ['.'], the files collected are
    exactly, in the order of the list and with its repetitions, the files
    of those links whose extension (the substring after the final ['.'])
    equals, case-sensitively, a member of the comma-separated setting AND
    which resolve to a file in the vault. *)
Theorem candidates_allowed_and_resolved :
  ∀ {V : Type} `{Host V} (settings : TranscriptionSettings) (w : World V)
    (filesLinked : list jsstring),
    Forall (λ p, 46 ∈ p) filesLinked →
    (collect settings filesLinked [] w).1
    = omap (resolved_file (env w))
        (filter (λ p, allowed (transcribeFileExtensions settings) p = true)
           filesLinked).
Proof.
  intros V HV settings w filesLinked Hdots. rewrite collect_spec. cbn [app].
  f_equal. induction Hdots as [|p rest Hp _ IH]; [done|].
  rewrite !filter_cons, IH, (skipped_dotted settings p Hp).
  destruct (allowed _ p); cbn [negb]; by repeat case_decide.
Qed.

Lemma candidates_allowed_and_resolved_witness :
  (collect DEFAULT_SETTINGS
     [lit "audio/Recording.webm"; lit "note.md"; lit "audio/Recording.webm";
      lit "audio/Recording.WEBM"; lit "lost.mp3"]
     [] (sample_world [] hello_server)).1
  = [recording_webm; recording_webm].
Proof.
  exact (candidates_allowed_and_resolved DEFAULT_SETTINGS
           (sample_world [] hello_server)
           [lit "audio/Recording.webm"; lit "note.md"; lit "audio/Recording.webm";
            lit "audio/Recording.WEBM"; lit "lost.mp3"]
           ltac:(repeat constructor; by vm_compute)).
Defined.

(** C4 as it was stated fails: [lost.mp3] has an allowed extension, so it
    belongs to the subsequence the claim describes, but it does not resolve
    to a file and is not collected. *)
Lemma unresolved_link_not_collected :
  filter (λ p, allowed (transcribeFileExtensions DEFAULT_SETTINGS) p = true)
    [lit "audio/Recording.webm"; lit "lost.mp3"]
  = [lit "audio/Recording.webm"; lit "lost.mp3"]
  ∧ map path
      (collect DEFAULT_SETTINGS [lit "audio/Recording.webm"; lit "lost.mp3"] []
         (sample_world [] hello_server)).1
    = [lit "audio/Recording.webm"].
Proof. split; reflexivity. Qed.

(** C5 (the code departs from the claim).  With the default setting
    [mp3,wav,webm], the link [mp3] has no ['.'] and hence no extension, yet
    it is collected: [split(".").pop()] returns the whole path, the test
    against [undefined] never fires, and the path itself is found in the
    list. *)
Theorem extensionless_link_collected :
  extension (lit "mp3") = None
  ∧ linkedFileExtension (lit "mp3") = Some (lit "mp3")
  ∧ (collect DEFAULT_SETTINGS (resolvedLinks_keys (lit "note.md") vault_with_plain_file)
       [] (mkWorld vault_with_plain_file [] [])).1
    = [file_at (lit "mp3")].
Proof. repeat split; reflexivity. Qed.

(** ** One chain's failure and the other chains *)

Section IsolationFacts.
Context {V : Type} `{Host V}.
Variable settings : TranscriptionSettings.
Variable view_file : TFile.
Variable JSON_stringify : TranscriptionResult → jsstring.

Local Abbreviation step := (step settings view_file JSON_stringify).
Local Abbreviation step_at := (step_at settings view_file JSON_stringify).
Local Abbreviation run := (run settings view_file JSON_stringify).
Local Abbreviation fails_throughout :=
  (fails_throughout settings view_file JSON_stringify).

Local Ltac world_facts :=
  unfold engine_catch, debug_log, console_log, new_Notice, set_env;
  repeat match goal with
         | |- context [if debug settings then _ else _] => destruct (debug settings)
         end;
  cbn [fst snd env notices console].

(** A step reads nothing of the world but the host. *)
Lemma step_reads_env (t : task) (w1 w2 : World V) :
  env w1 = env w2 →
  (step t w1).1 = (step t w2).1 ∧ env (step t w1).2 = env (step t w2).2.
Proof.
  intros Henv. destruct t as [file s]. unfold step. cbn [fileToTranscribe stage_of].
  destruct s; cbn [fst snd].
  - unfold on_readBinary. rewrite Henv.
    destruct (vault_readBinary _ _); by world_facts.
  - unfold on_response. rewrite Henv.
    destruct (requestUrl _ _) as [e|r]; [by world_facts|].
    destruct (response_json r); by world_facts.
  - unfold on_fulfilled. by world_facts.
  - unfold on_read. rewrite Henv.
    destruct (vault_read _ _); by world_facts.
  - unfold on_modify. rewrite Henv.
    destruct (vault_modify _ _ _); by world_facts.
  - unfold on_createBinary. rewrite Henv.
    destruct (vault_createBinary _ _ _); by world_facts.
  - unfold on_rejected. by world_facts.
  - done.
Qed.

(** A chain whose transcription has not succeeded leaves the host as it
    is: the vault is written by the [then] callback only. *)
Lemma step_unsuccessful_env (t : task) (w : World V) :
  unsuccessful (stage_of t) = true → env (step t w).2 = env w.
Proof.
  destruct t as [file s]. unfold step. cbn [fileToTranscribe stage_of].
  destruct s; try discriminate; intros _; cbn [fst snd].
  - unfold on_readBinary. destruct (vault_readBinary _ _); by world_facts.
  - unfold on_response. destruct (requestUrl _ _) as [e|r]; [by world_facts|].
    destruct (response_json r); by world_facts.
  - unfold on_rejected. by world_facts.
  - done.
Qed.

Lemma step_at_same_but F i p1 p2 :
  i ≠ F → same_but F p1 p2 → same_but F (step_at i p1) (step_at i p2).
Proof.
  intros Hi [Henv Hpool]. unfold step_at. rewrite <- (Hpool i Hi).
  destruct (p1.1 !! i) as [t|] eqn:Hlook; [|done].
  pose proof (step_reads_env t p1.2 p2.2 Henv) as [Ht Hw].
  destruct (step t p1.2) as [t1 w1], (step t p2.2) as [t2 w2].
  cbn [fst snd] in *. subst t2. split; [done|]. intros G HG. cbn [fst].
  destruct (decide (G = i)) as [->|Hne].
  - pose proof (Hpool i Hi) as Hlook2. rewrite Hlook in Hlook2.
    rewrite list_lookup_insert_eq by (by eapply lookup_lt_Some).
    by rewrite list_lookup_insert_eq by (by eapply lookup_lt_Some).
  - rewrite !list_lookup_insert_ne by done. by apply Hpool.
Qed.

Lemma step_at_unsuccessful F p t :
  p.1 !! F = Some t → unsuccessful (stage_of t) = true →
  same_but F (step_at F p) p.
Proof.
  intros Hlook Hun. unfold step_at. rewrite Hlook.
  pose proof (step_unsuccessful_env t p.2 Hun) as Henv.
  destruct (step t p.2) as [t' w']. cbn [fst snd] in *. split; [done|].
  intros G HG. cbn [fst]. by rewrite list_lookup_insert_ne.
Qed.

Lemma same_but_trans F (p1 p2 p3 : list task * World V) :
  same_but F p1 p2 → same_but F p2 p3 → same_but F p1 p3.
Proof.
  intros [He1 Hp1] [He2 Hp2]. split; [congruence|].
  intros G HG. by rewrite Hp1, Hp2.
Qed.

Lemma run_without_failing_chain F : ∀ schedule p1 p2,
  same_but F p1 p2 →
  fails_throughout F schedule p1 = true →
  same_but F (run schedule p1) (run (filter (λ i, i ≠ F) schedule) p2).
Proof.
  induction schedule as [|i rest IH]; intros p1 p2 Hsame Hfails; [done|].
  cbn [fails_throughout] in Hfails.
  apply andb_true_iff in Hfails as [Hnow Hrest].
  destruct (p1.1 !! F) as [t|] eqn:Hlook; [|done].
  unfold run. cbn [foldl]. fold (run rest (step_at i p1)).
  destruct (decide (i = F)) as [->|Hi].
  - rewrite filter_cons_False by (intros ?; done).
    apply IH; [|done].
    eapply same_but_trans; [by eapply step_at_unsuccessful | done].
  - rewrite filter_cons_True by done. cbn [foldl].
    apply IH; [|done]. by apply step_at_same_but.
Qed.

Lemma fails_throughout_take F : ∀ schedule p n,
  fails_throughout F schedule p = true →
  fails_throughout F (take n schedule) p = true.
Proof.
  induction schedule as [|i rest IH]; intros p n Hfails.
  { by rewrite take_nil. }
  destruct n as [|n]; cbn [take fails_throughout] in *;
    apply andb_true_iff in Hfails as [-> Hrest]; [done|].
  cbn [andb]. by apply IH.
Qed.

Lemma step_at_singleton (t : task) (w : World V) :
  step_at 0 ([t], w) = ([(step t w).1], (step t w).2).
Proof. unfold step_at. cbn [fst snd lookup list_lookup]. by destruct (step t w). Qed.

Lemma step_Fulfilled file transcription (w : World V) :
  step {| fileToTranscribe := file; stage_of := Fulfilled transcription |} w
  = ({| fileToTranscribe := file; stage_of := AwaitRead transcription |},
     debug_log settings object_toString w).
Proof. reflexivity. Qed.

Lemma step_AwaitRead file transcription (w : World V) fileText :
  vault_read view_file (env w) = inr fileText →
  step {| fileToTranscribe := file; stage_of := AwaitRead transcription |} w
  = ({| fileToTranscribe := file;
        stage_of :=
          AwaitModify transcription (fileToLinktext file (path view_file) (env w))
            (spliced fileText (fileToLinktext file (path view_file) (env w))
               transcription) |},
     debug_log settings (fileToLinktext file (path view_file) (env w)) w).
Proof.
  intros Hread. unfold step. cbn [fileToTranscribe stage_of].
  by rewrite (on_read_fulfilled settings view_file file transcription w fileText).
Qed.

Lemma step_AwaitModify file transcription fileLinkString fileText (w : World V) v :
  vault_modify view_file fileText (env w) = inr v →
  step {| fileToTranscribe := file;
          stage_of := AwaitModify transcription fileLinkString fileText |} w
  = ({| fileToTranscribe := file;
        stage_of := AwaitCreateBinary (sidecar_path file fileLinkString)
                      (utf8 (JSON_stringify transcription)) |},
     set_env v w).
Proof.
  intros Hmodify. unfold step. cbn [fileToTranscribe stage_of].
  unfold on_modify. by rewrite Hmodify.
Qed.

Lemma step_AwaitCreateBinary file sidecar data (w : World V) v :
  vault_createBinary sidecar data (env w) = inr v →
  step {| fileToTranscribe := file; stage_of := AwaitCreateBinary sidecar data |} w
  = ({| fileToTranscribe := file; stage_of := Done |}, set_env v w).
Proof.
  intros Hcreate. unfold step. cbn [fileToTranscribe stage_of].
  unfold on_createBinary. by rewrite Hcreate.
Qed.

(** A fulfilled chain whose host operations succeed reads the note, writes
    the spliced text and then the JSON, in three steps after the [then]
    callback has started. *)
Lemma fulfilled_chain_writes file transcription (w : World V) fileText v1 v2 :
  vault_read view_file (env w) = inr fileText →
  vault_modify view_file
    (spliced fileText (fileToLinktext file (path view_file) (env w)) transcription)
    (env w) = inr v1 →
  vault_createBinary
    (sidecar_path file (fileToLinktext file (path view_file) (env w)))
    (utf8 (JSON_stringify transcription)) v1 = inr v2 →
  ∃ w', run [0; 0; 0; 0]%nat
          ([{| fileToTranscribe := file; stage_of := Fulfilled transcription |}], w)
        = ([{| fileToTranscribe := file; stage_of := Done |}], w')
        ∧ env w' = v2 ∧ notices w' = notices w.
Proof.
  intros Hread Hmodify Hcreate. eexists. split.
  - unfold run. cbn [foldl].
    rewrite step_at_singleton, step_Fulfilled. cbn [fst snd].
    rewrite step_at_singleton, (step_AwaitRead _ _ _ fileText)
      by (by rewrite env_debug_log).
    cbn [fst snd]. rewrite !env_debug_log.
    rewrite step_at_singleton, (step_AwaitModify _ _ _ _ _ v1)
      by (by rewrite !env_debug_log).
    cbn [fst snd].
    rewrite step_at_singleton, (step_AwaitCreateBinary _ _ _ _ v2) by done.
    cbn [fst snd]. reflexivity.
  - cbn [set_env env notices]. by rewrite !notices_debug_log.
Qed.

End IsolationFacts.

(** C9.  Let the chains of one run be stepped in any order, and let the
    transcription of chain [F] never succeed during the run (it is pending,
    or it has failed and its notice is shown).  Then at every moment of the
    run the vault and every other chain [G] are exactly as in the run
    where [F]'s steps are left out: the splice and the JSON of a succeeding
    [G] are written all the same, after the same steps of [G]. *)
Theorem failure_leaves_others_alone :
  ∀ {V : Type} `{Host V} (settings : TranscriptionSettings) (view_file : TFile)
    (JSON_stringify : TranscriptionResult → jsstring)
    (schedule : list nat) (pool : list task) (w : World V) (F : nat),
    fails_throughout settings view_file JSON_stringify F schedule (pool, w) = true →
    ∀ n : nat,
      let so_far := take n schedule in
      let with_F := run settings view_file JSON_stringify so_far (pool, w) in
      let without_F :=
        run settings view_file JSON_stringify
          (filter (λ i, i ≠ F) so_far) (pool, w) in
      env with_F.2 = env without_F.2
      ∧ ∀ G : nat, G ≠ F → with_F.1 !! G = without_F.1 !! G.
Proof.
  intros V HV settings view_file JSON_stringify schedule pool w F Hfails n.
  apply (run_without_failing_chain settings view_file JSON_stringify F).
  - by split.
  - by apply fails_throughout_take.
Qed.

Lemma failure_leaves_others_alone_witness :
  let schedule := take 9 [0; 1; 0; 1; 1; 0; 1; 1; 1]%nat in
  let start := editorCallback DEFAULT_SETTINGS note_md two_recordings in
  env (run DEFAULT_SETTINGS note_md text_only schedule (start.1, start.2)).2
  = env (run DEFAULT_SETTINGS note_md text_only
           (filter (λ i, i ≠ 0%nat) schedule) (start.1, start.2)).2
  ∧ ∀ G : nat, G ≠ 0%nat →
      (run DEFAULT_SETTINGS note_md text_only schedule (start.1, start.2)).1 !! G
      = (run DEFAULT_SETTINGS note_md text_only
           (filter (λ i, i ≠ 0%nat) schedule) (start.1, start.2)).1 !! G.
Proof.
  assert (Hfails :
    fails_throughout DEFAULT_SETTINGS note_md text_only 0
      [0; 1; 0; 1; 1; 0; 1; 1; 1]%nat
      ((editorCallback DEFAULT_SETTINGS note_md two_recordings).1,
       (editorCallback DEFAULT_SETTINGS note_md two_recordings).2) = true)
    by (vm_compute; reflexivity).
  exact (failure_leaves_others_alone DEFAULT_SETTINGS note_md text_only
           [0; 1; 0; 1; 1; 0; 1; 1; 1]%nat
           (editorCallback DEFAULT_SETTINGS note_md two_recordings).1
           (editorCallback DEFAULT_SETTINGS note_md two_recordings).2
           0%nat Hfails 9%nat).
Defined.

(** The run of the witness, to the end: the long recording is refused by
    the server and only a notice is shown for it; the short one is spliced
    into the note and its JSON is written. *)
Example run_two_recordings :
  let finish :=
    run DEFAULT_SETTINGS note_md text_only [0; 1; 0; 1; 1; 0; 1; 1; 1]%nat
      (editorCallback DEFAULT_SETTINGS note_md two_recordings) in
  map stage_of finish.1 = [Done; Done]
  ∧ mv_texts (env finish.2) !! lit "note.md"
    = Some (lit "![[long.mp3]] ![[Recording.webm]]" ++ [10] ++ lit "Hello"
              ++ [10] ++ lit "world")
  ∧ mv_binaries (env finish.2) !! lit "audio/webm.json"
    = Some (utf8 (text_only hello_world))
  ∧ map fst (notices finish.2)
    = [lit "Transcribing all audio files in note.md";
       lit "Error transcribing file, enable debug mode to see more"].
Proof. vm_compute. repeat split; reflexivity. Qed.

(** * Further properties of the code *)

(** ** The multipart request: what the framing adds and keeps *)

Lemma utf8_pre_string (rnd : jsstring) :
  utf8 (pre_string rnd)
  = ascii_bytes "------Boundary" ++ utf8 rnd ++ [13; 10] ++ part_headers.
Proof.
  unfold pre_string, randomBoundaryString. set (rest := crlf ++ _).
  change (lit "------" ++ (lit "Boundary" ++ rnd) ++ rest)
    with (ascii_bytes "------Boundary" ++ (rnd ++ rest)).
  rewrite utf8_ascii_app by repeat constructor.
  by rewrite utf8_app by reflexivity.
Qed.

Lemma utf8_post_string (rnd : jsstring) :
  utf8 (post_string rnd)
  = [13; 10] ++ ascii_bytes "------Boundary" ++ utf8 rnd ++ ascii_bytes "--".
Proof.
  unfold post_string, randomBoundaryString.
  change (crlf ++ lit "------" ++ (lit "Boundary" ++ rnd) ++ lit "--")
    with ((crlf ++ ascii_bytes "------Boundary") ++ (rnd ++ lit "--")).
  rewrite utf8_ascii_app by repeat constructor.
  rewrite utf8_app by reflexivity. by rewrite <- !app_assoc.
Qed.

(** X1.  The framing costs a fixed number of octets: the body is as long
    as the audio bytes, plus twice the encoded boundary string, plus 146. *)
Theorem multipart_body_length :
  ∀ (rnd : jsstring) (settings : TranscriptionSettings) (data : bytes),
    length (body (options rnd settings data))
    = (length data + 2 * length (utf8 rnd) + 146)%nat.
Proof.
  intros rnd settings data. cbn [options body]. unfold concatenated.
  rewrite utf8_pre_string, utf8_post_string. rewrite !length_app.
  change (length part_headers) with 112%nat.
  change (length (ascii_bytes "------Boundary")) with 14%nat.
  change (length (ascii_bytes "--")) with 2%nat.
  cbn [length]. lia.
Qed.

(** X2.  A request determines what it carries: two requests that are equal
    were built from the same boundary string, the same audio bytes and the
    same server address. *)
Theorem request_determines_payload :
  ∀ (rnd1 rnd2 : jsstring) (s1 s2 : TranscriptionSettings) (data1 data2 : bytes),
    options rnd1 s1 data1 = options rnd2 s2 data2 →
    rnd1 = rnd2 ∧ data1 = data2 ∧ whisperASRUrl s1 = whisperASRUrl s2.
Proof.
  intros rnd1 rnd2 s1 s2 data1 data2 Heq.
  assert (Hct : contentType (options rnd1 s1 data1)
                = contentType (options rnd2 s2 data2)) by congruence.
  assert (Hbody : body (options rnd1 s1 data1) = body (options rnd2 s2 data2))
    by congruence.
  assert (Hurl : url (options rnd1 s1 data1) = url (options rnd2 s2 data2))
    by congruence.
  cbn [options contentType body url] in *. unfold randomBoundaryString in Hct.
  apply app_inv_head in Hct. apply app_inv_head in Hct. subst rnd2.
  unfold concatenated in Hbody. apply app_inv_head in Hbody.
  apply app_inv_tail in Hbody. by apply app_inv_tail in Hurl.
Qed.

Lemma request_determines_payload_witness :
  lit "k3J9xQ2mZp7LwT1a" = lit "k3J9xQ2mZp7LwT1a"
  ∧ [26; 69; 223; 163] = [26; 69; 223; 163]
  ∧ whisperASRUrl DEFAULT_SETTINGS = whisperASRUrl DEFAULT_SETTINGS.
Proof.
  exact (request_determines_payload (lit "k3J9xQ2mZp7LwT1a") (lit "k3J9xQ2mZp7LwT1a")
           DEFAULT_SETTINGS DEFAULT_SETTINGS [26; 69; 223; 163] [26; 69; 223; 163]
           eq_refl).
Defined.

(** ** One chain from start to end *)

Section ChainFacts.
Context {V : Type} `{Host V}.
Variable settings : TranscriptionSettings.
Variable view_file : TFile.
Variable JSON_stringify : TranscriptionResult → jsstring.

Local Abbreviation step := (step settings view_file JSON_stringify).
Local Abbreviation step_at := (step_at settings view_file JSON_stringify).
Local Abbreviation run := (run settings view_file JSON_stringify).

Lemma run_cons i schedule (p : list task * World V) :
  run (i :: schedule) p = run schedule (step_at i p).
Proof. reflexivity. Qed.

Lemma run_singleton_cons schedule (t : task) (w : World V) :
  run (0%nat :: schedule) ([t], w) = run schedule ([(step t w).1], (step t w).2).
Proof.
  rewrite run_cons. f_equal.
  apply (step_at_singleton settings view_file JSON_stringify).
Qed.

Lemma step_Rejected file error (w : World V) :
  step (chain file (Rejected error)) w
  = (chain file Done, new_Notice (error_message settings file error) None w).
Proof. reflexivity. Qed.

Lemma step_AwaitReadBinary_failed file rnd (w : World V) error :
  vault_readBinary file (env w) = inl error →
  step (chain file (AwaitReadBinary rnd)) w = (chain file (Rejected error), w).
Proof.
  intros Hdata. unfold step, chain. cbn [fileToTranscribe stage_of].
  unfold on_readBinary. by rewrite Hdata.
Qed.

Lemma step_AwaitReadBinary_read file rnd (w : World V) data :
  vault_readBinary file (env w) = inr data →
  step (chain file (AwaitReadBinary rnd)) w
  = (chain file (AwaitResponse (options rnd settings data)),
     debug_log settings (lit "Transcribing with WhisperASR") w).
Proof.
  intros Hdata. unfold step, chain. cbn [fileToTranscribe stage_of].
  unfold on_readBinary. by rewrite Hdata.
Qed.

Lemma step_AwaitResponse_failed file request (w : World V) error :
  requestUrl request (env w) = inl error →
  step (chain file (AwaitResponse request)) w
  = (chain file (Rejected error),
     if debug settings then console_log error w else w).
Proof.
  intros Hreq. unfold step, chain. cbn [fileToTranscribe stage_of].
  unfold on_response. by rewrite Hreq.
Qed.

Lemma step_AwaitRead_failed file transcription (w : World V) error :
  vault_read view_file (env w) = inl error →
  step (chain file (AwaitRead transcription)) w = (chain file (Rejected error), w).
Proof.
  intros Hread. unfold step, chain. cbn [fileToTranscribe stage_of].
  unfold on_read. by rewrite Hread.
Qed.

Lemma step_AwaitModify_failed file transcription fileLinkString fileText
  (w : World V) error :
  vault_modify view_file fileText (env w) = inl error →
  step (chain file (AwaitModify transcription fileLinkString fileText)) w
  = (chain file (Rejected error), w).
Proof.
  intros Hmod. unfold step, chain. cbn [fileToTranscribe stage_of].
  unfold on_modify. by rewrite Hmod.
Qed.

Lemma step_AwaitCreateBinary_failed file sidecar data (w : World V) error :
  vault_createBinary sidecar data (env w) = inl error →
  step (chain file (AwaitCreateBinary sidecar data)) w
  = (chain file (Rejected error), w).
Proof.
  intros Hcreate. unfold step, chain. cbn [fileToTranscribe stage_of].
  unfold on_createBinary. by rewrite Hcreate.
Qed.

Lemma env_console_log_if (b : bool) message (w : World V) :
  env (if b then console_log message w else w) = env w.
Proof. by destruct b. Qed.

Lemma notices_console_log_if (b : bool) message (w : World V) :
  notices (if b then console_log message w else w) = notices w.
Proof. by destruct b. Qed.

End ChainFacts.

(** X3.  An audio file that cannot be read is never sent to the server:
    its chain ends after two steps, the world is left as it was, debug
    mode or not, except for the one failure notice, which carries the very
    error of [readBinary] in debug mode. *)
Theorem unreadable_file_reported :
  ∀ {V : Type} `{Host V} (settings : TranscriptionSettings) (view_file : TFile)
    (JSON_stringify : TranscriptionResult → jsstring)
    (file : TFile) (rnd : jsstring) (w : World V) (error : js_error),
    vault_readBinary file (env w) = inl error →
    run settings view_file JSON_stringify [0; 0]%nat
      ([chain file (AwaitReadBinary rnd)], w)
    = ([chain file Done],
       new_Notice (error_message settings file error) None w).
Proof.
  intros V HV settings view_file JSON_stringify file rnd w error Hdata.
  rewrite run_singleton_cons.
  rewrite (step_AwaitReadBinary_failed settings view_file JSON_stringify
             file rnd w error Hdata).
  cbn [fst snd]. by rewrite run_singleton_cons.
Qed.

Lemma unreadable_file_reported_witness :
  run DEBUG_SETTINGS note_md text_only [0; 0]%nat
    ([chain (file_at (lit "audio/gone.mp3")) (AwaitReadBinary (lit "k3J9xQ2mZp7LwT1a"))],
     sample_world [] hello_server)
  = ([chain (file_at (lit "audio/gone.mp3")) Done],
     new_Notice
       (error_message DEBUG_SETTINGS (file_at (lit "audio/gone.mp3")) not_found)
       None (sample_world [] hello_server)).
Proof.
  exact (unreadable_file_reported DEBUG_SETTINGS note_md text_only
           (file_at (lit "audio/gone.mp3")) (lit "k3J9xQ2mZp7LwT1a")
           (sample_world [] hello_server) not_found eq_refl).
Defined.

(** X4.  When the request fails (no connection, an error status), the
    chain ends after three steps with the host untouched and exactly one
    notice more, built from the error the request failed with: the error is
    passed on as it is, there is no second attempt. *)
Theorem failed_request_reported :
  ∀ {V : Type} `{Host V} (settings : TranscriptionSettings) (view_file : TFile)
    (JSON_stringify : TranscriptionResult → jsstring)
    (file : TFile) (rnd : jsstring) (w : World V) (data : bytes)
    (error : js_error),
    vault_readBinary file (env w) = inr data →
    requestUrl (options rnd settings data) (env w) = inl error →
    ∃ w' : World V,
      run settings view_file JSON_stringify [0; 0; 0]%nat
        ([chain file (AwaitReadBinary rnd)], w)
      = ([chain file Done], w')
      ∧ env w' = env w
      ∧ notices w' = notices w ++ [(error_message settings file error, None)].
Proof.
  intros V HV settings view_file JSON_stringify file rnd w data error Hdata Hreq.
  eexists. split.
  - rewrite run_singleton_cons.
    rewrite (step_AwaitReadBinary_read settings view_file JSON_stringify
               file rnd w data Hdata).
    cbn [fst snd]. rewrite run_singleton_cons.
    rewrite (step_AwaitResponse_failed settings view_file JSON_stringify
               file _ _ error) by (by rewrite env_debug_log).
    cbn [fst snd]. rewrite run_singleton_cons.
    rewrite (step_Rejected settings view_file JSON_stringify).
    cbn [fst snd]. reflexivity.
  - cbn [new_Notice env notices].
    by rewrite env_console_log_if, notices_console_log_if,
         env_debug_log, notices_debug_log.
Qed.

Lemma failed_request_reported_witness :
  ∃ w' : World MemVault,
    run DEFAULT_SETTINGS note_md text_only [0; 0; 0]%nat
      ([chain recording_webm (AwaitReadBinary (lit "k3J9xQ2mZp7LwT1a"))],
       sample_world [] down_server)
    = ([chain recording_webm Done], w')
    ∧ env w' = env (sample_world [] down_server)
    ∧ notices w'
      = notices (sample_world [] down_server)
          ++ [(error_message DEFAULT_SETTINGS recording_webm
                 (lit "Error: net::ERR_CONNECTION_REFUSED"), None)].
Proof.
  exact (failed_request_reported DEFAULT_SETTINGS note_md text_only
           recording_webm (lit "k3J9xQ2mZp7LwT1a") (sample_world [] down_server)
           [26; 69; 223; 163] (lit "Error: net::ERR_CONNECTION_REFUSED")
           eq_refl eq_refl).
Defined.

(** X5.  The whole success path: when the file is read, the server
    answers with a transcription, and the vault accepts both writes, the
    chain ends after six steps; the host is then the one left by
    [vault.modify] of the spliced text followed by [vault.createBinary] of
    the encoded JSON, and no notice is shown: success is silent. *)
Theorem successful_chain_writes_both :
  ∀ {V : Type} `{Host V} (settings : TranscriptionSettings) (view_file : TFile)
    (JSON_stringify : TranscriptionResult → jsstring)
    (file : TFile) (rnd : jsstring) (w : World V) (data : bytes)
    (response : RequestUrlResponse) (transcription : TranscriptionResult)
    (fileText : jsstring) (v1 v2 : V),
    vault_readBinary file (env w) = inr data →
    requestUrl (options rnd settings data) (env w) = inr response →
    response_json response = inr transcription →
    vault_read view_file (env w) = inr fileText →
    let fileLinkString := fileToLinktext file (path view_file) (env w) in
    vault_modify view_file (spliced fileText fileLinkString transcription) (env w)
      = inr v1 →
    vault_createBinary (sidecar_path file fileLinkString)
      (utf8 (JSON_stringify transcription)) v1 = inr v2 →
    ∃ w' : World V,
      run settings view_file JSON_stringify [0; 0; 0; 0; 0; 0]%nat
        ([chain file (AwaitReadBinary rnd)], w)
      = ([chain file Done], w')
      ∧ env w' = v2 ∧ notices w' = notices w.
Proof.
  intros V HV settings view_file JSON_stringify file rnd w data response
    transcription fileText v1 v2 Hdata Hreq Hjson Hread fileLinkString
    Hmodify Hcreate.
  assert (Hsettle :
    step settings view_file JSON_stringify
      (chain file (AwaitResponse (options rnd settings data)))
      (debug_log settings (lit "Transcribing with WhisperASR") w)
    = (chain file (Fulfilled transcription),
       debug_log settings object_toString
         (debug_log settings (lit "Transcribing with WhisperASR") w))).
  { unfold step, chain. cbn [fileToTranscribe stage_of]. unfold on_response.
    by rewrite env_debug_log, Hreq, Hjson. }
  rewrite run_singleton_cons.
  rewrite (step_AwaitReadBinary_read settings view_file JSON_stringify
             file rnd w data Hdata).
  cbn [fst snd]. rewrite run_singleton_cons, Hsettle. cbn [fst snd].
  set (w2 := debug_log settings object_toString _).
  assert (Henv : env w2 = env w) by (subst w2; by rewrite !env_debug_log).
  assert (Hnot : notices w2 = notices w) by (subst w2; by rewrite !notices_debug_log).
  destruct (fulfilled_chain_writes settings view_file JSON_stringify file
              transcription w2 fileText v1 v2) as (w' & Hrun & Henv' & Hnot').
  - by rewrite Henv.
  - by rewrite Henv.
  - by rewrite Henv.
  - exists w'. split; [|split; [done | congruence]].
    rewrite run_singleton_cons in Hrun. exact Hrun.
Qed.

Lemma successful_chain_writes_both_witness :
  ∃ w' : World MemVault,
    run DEFAULT_SETTINGS note_md text_only [0; 0; 0; 0; 0; 0]%nat
      ([chain recording_webm (AwaitReadBinary (lit "k3J9xQ2mZp7LwT1a"))],
       sample_world (lit "See ![[Recording.webm]] here") hello_server)
    = ([chain recording_webm Done], w')
    ∧ env w'
      = mv_set_binaries
          {[ lit "audio/webm.json" := utf8 (text_only hello_world);
             lit "audio/Recording.webm" := [26; 69; 223; 163] ]}
          (mv_set_texts
             {[ lit "note.md" :=
                  lit "See ![[Recording.webm]]" ++ [10] ++ lit "Hello" ++ [10]
                    ++ lit "world" ++ lit " here" ]}
             (sample_vault (lit "See ![[Recording.webm]] here") hello_server))
    ∧ notices w' = [].
Proof.
  exact (successful_chain_writes_both DEFAULT_SETTINGS note_md text_only
           recording_webm (lit "k3J9xQ2mZp7LwT1a")
           (sample_world (lit "See ![[Recording.webm]] here") hello_server)
           [26; 69; 223; 163] {| response_json := inr hello_world |} hello_world
           (lit "See ![[Recording.webm]] here") _ _
           eq_refl eq_refl eq_refl eq_refl eq_refl eq_refl).
Defined.

(** X6.  When the vault refuses to modify the note, the JSON is not
    written either: the chain ends after four steps from its fulfilment,
    the host is untouched, and the failure is shown like a failed
    transcription, in one notice built from the vault's error. *)
Theorem refused_modify_reported :
  ∀ {V : Type} `{Host V} (settings : TranscriptionSettings) (view_file : TFile)
    (JSON_stringify : TranscriptionResult → jsstring)
    (file : TFile) (transcription : TranscriptionResult) (w : World V)
    (fileText : jsstring) (error : js_error),
    vault_read view_file (env w) = inr fileText →
    vault_modify view_file
      (spliced fileText (fileToLinktext file (path view_file) (env w))
         transcription)
      (env w) = inl error →
    ∃ w' : World V,
      run settings view_file JSON_stringify [0; 0; 0; 0]%nat
        ([chain file (Fulfilled transcription)], w)
      = ([chain file Done], w')
      ∧ env w' = env w
      ∧ notices w' = notices w ++ [(error_message settings file error, None)].
Proof.
  intros V HV settings view_file JSON_stringify file transcription w fileText
    error Hread Hmodify.
  eexists. split.
  - rewrite run_singleton_cons.
    rewrite (step_Fulfilled settings view_file JSON_stringify). cbn [fst snd].
    rewrite run_singleton_cons.
    rewrite (step_AwaitRead settings view_file JSON_stringify file transcription
               _ fileText) by (by rewrite env_debug_log).
    cbn [fst snd]. rewrite !env_debug_log. rewrite run_singleton_cons.
    rewrite (step_AwaitModify_failed settings view_file JSON_stringify
               file transcription _ _ _ error) by (by rewrite !env_debug_log).
    cbn [fst snd]. rewrite run_singleton_cons.
    rewrite (step_Rejected settings view_file JSON_stringify).
    cbn [fst snd]. reflexivity.
  - cbn [new_Notice env notices].
    by rewrite !env_debug_log, !notices_debug_log.
Qed.

Lemma refused_modify_reported_witness :
  ∃ w' : World MemVault,
    run (H := refusing_host true false) DEBUG_SETTINGS note_md text_only
      [0; 0; 0; 0]%nat
      ([chain recording_webm (Fulfilled hello_world)],
       sample_world (lit "See ![[Recording.webm]] here") hello_server)
    = ([chain recording_webm Done], w')
    ∧ env w' = env (sample_world (lit "See ![[Recording.webm]] here") hello_server)
    ∧ notices w'
      = notices (sample_world (lit "See ![[Recording.webm]] here") hello_server)
          ++ [(error_message DEBUG_SETTINGS recording_webm (lit "Error: EACCES"),
               None)].
Proof.
  exact (refused_modify_reported (H := refusing_host true false)
           DEBUG_SETTINGS note_md text_only recording_webm hello_world
           (sample_world (lit "See ![[Recording.webm]] here") hello_server)
           (lit "See ![[Recording.webm]] here") (lit "Error: EACCES")
           eq_refl eq_refl).
Defined.

(** X7.  When the note was modified but the JSON cannot be created, the
    transcript stays in the note: the chain ends after five steps from its
    fulfilment with the host as [vault.modify] left it, and the user sees a
    failure notice all the same. *)
Theorem refused_sidecar_after_splice :
  ∀ {V : Type} `{Host V} (settings : TranscriptionSettings) (view_file : TFile)
    (JSON_stringify : TranscriptionResult → jsstring)
    (file : TFile) (transcription : TranscriptionResult) (w : World V)
    (fileText : jsstring) (v1 : V) (error : js_error),
    vault_read view_file (env w) = inr fileText →
    let fileLinkString := fileToLinktext file (path view_file) (env w) in
    vault_modify view_file (spliced fileText fileLinkString transcription) (env w)
      = inr v1 →
    vault_createBinary (sidecar_path file fileLinkString)
      (utf8 (JSON_stringify transcription)) v1 = inl error →
    ∃ w' : World V,
      run settings view_file JSON_stringify [0; 0; 0; 0; 0]%nat
        ([chain file (Fulfilled transcription)], w)
      = ([chain file Done], w')
      ∧ env w' = v1
      ∧ notices w' = notices w ++ [(error_message settings file error, None)].
Proof.
  intros V HV settings view_file JSON_stringify file transcription w fileText
    v1 error Hread fileLinkString Hmodify Hcreate.
  eexists. split.
  - rewrite run_singleton_cons.
    rewrite (step_Fulfilled settings view_file JSON_stringify). cbn [fst snd].
    rewrite run_singleton_cons.
    rewrite (step_AwaitRead settings view_file JSON_stringify file transcription
               _ fileText) by (by rewrite env_debug_log).
    cbn [fst snd]. rewrite !env_debug_log. rewrite run_singleton_cons.
    rewrite (step_AwaitModify settings view_file JSON_stringify
               file transcription _ _ _ v1) by (by rewrite !env_debug_log).
    cbn [fst snd]. rewrite run_singleton_cons.
    rewrite (step_AwaitCreateBinary_failed settings view_file JSON_stringify
               file _ _ _ error) by done.
    cbn [fst snd]. rewrite run_singleton_cons.
    rewrite (step_Rejected settings view_file JSON_stringify).
    cbn [fst snd]. reflexivity.
  - cbn [new_Notice set_env env notices]. by rewrite !notices_debug_log.
Qed.

Lemma refused_sidecar_after_splice_witness :
  ∃ w' : World MemVault,
    run (H := refusing_host false true) DEFAULT_SETTINGS note_md text_only
      [0; 0; 0; 0; 0]%nat
      ([chain recording_webm (Fulfilled hello_world)],
       sample_world (lit "See ![[Recording.webm]] here") hello_server)
    = ([chain recording_webm Done], w')
    ∧ env w'
      = mv_set_texts
          (<[ lit "note.md" :=
                lit "See ![[Recording.webm]]" ++ [10] ++ lit "Hello" ++ [10]
                  ++ lit "world" ++ lit " here" ]>
             (mv_texts (sample_vault (lit "See ![[Recording.webm]] here")
                          hello_server)))
          (sample_vault (lit "See ![[Recording.webm]] here") hello_server)
    ∧ notices w'
      = [(error_message DEFAULT_SETTINGS recording_webm
            (lit "Error: File already exists."), None)].
Proof.
  exact (refused_sidecar_after_splice (H := refusing_host false true)
           DEFAULT_SETTINGS note_md text_only recording_webm hello_world
           (sample_world (lit "See ![[Recording.webm]] here") hello_server)
           (lit "See ![[Recording.webm]] here") _ (lit "Error: File already exists.")
           eq_refl eq_refl eq_refl).
Defined.

(** ** Every schedule: termination, notices, console *)

Lemma rank_0_Done (s : stage) : rank s = 0%nat → s = Done.
Proof. by destruct s. Qed.

Lemma picks_cons_eq i schedule : picks i (i :: schedule) = S (picks i schedule).
Proof. unfold picks. by rewrite filter_cons_True. Qed.

Lemma picks_cons_ne i j schedule : j ≠ i → picks i (j :: schedule) = picks i schedule.
Proof. intros Hne. unfold picks. by rewrite filter_cons_False. Qed.

(** What one chain owes to [pending]. *)
Lemma pending_cons t pool :
  pending (t :: pool)
  = ((if is_done (stage_of t) then 0 else 1) + pending pool)%nat.
Proof.
  unfold pending. rewrite filter_cons. destruct (is_done (stage_of t));
    by case_decide.
Qed.

Lemma pending_insert (pool : list task) : ∀ i t t',
  pool !! i = Some t →
  (pending (<[i := t']> pool) + (if is_done (stage_of t) then 0 else 1)
   = pending pool + (if is_done (stage_of t') then 0 else 1))%nat.
Proof.
  induction pool as [|t0 pool IH]; intros i t t' Hlook; [done|].
  destruct i as [|i]; cbn in Hlook.
  - change (<[0%nat := t']> (t0 :: pool)) with (t' :: pool).
    injection Hlook as ->. rewrite !pending_cons.
    destruct (is_done (stage_of t)), (is_done (stage_of t')); lia.
  - change (<[S i := t']> (t0 :: pool)) with (t0 :: <[i := t']> pool).
    rewrite !pending_cons. specialize (IH i t t' Hlook).
    destruct (is_done (stage_of t)), (is_done (stage_of t')),
      (is_done (stage_of t0)); lia.
Qed.

Section RunFacts.
Context {V : Type} `{Host V}.
Variable settings : TranscriptionSettings.
Variable view_file : TFile.
Variable JSON_stringify : TranscriptionResult → jsstring.

Local Abbreviation step := (step settings view_file JSON_stringify).
Local Abbreviation step_at := (step_at settings view_file JSON_stringify).
Local Abbreviation run := (run settings view_file JSON_stringify).

Local Ltac stage_cases t :=
  destruct t as [file s]; unfold step;
  cbn [fileToTranscribe stage_of]; destruct s; cbn [fst snd];
  unfold on_readBinary, on_response, engine_catch, on_fulfilled, on_read,
    on_modify, on_createBinary, on_rejected;
  repeat match goal with
         | |- context [match ?x with inl _ => _ | inr _ => _ end] => destruct x
         end;
  cbn [fst snd stage_of fileToTranscribe].

(** A step moves a chain strictly down the stages, until it is done. *)
Lemma step_rank (t : task) (w : World V) :
  (rank (stage_of (step t w).1) ≤ pred (rank (stage_of t)))%nat.
Proof. stage_cases t; cbn [rank pred]; lia. Qed.

Lemma step_file (t : task) (w : World V) :
  fileToTranscribe (step t w).1 = fileToTranscribe t.
Proof. by stage_cases t. Qed.

(** A step shows a notice only when it takes the chain from rejected to
    done. *)
Lemma step_notices (t : task) (w : World V) :
  (length (notices (step t w).2)
   + (if is_done (stage_of (step t w).1) then 0 else 1)
   ≤ length (notices w) + (if is_done (stage_of t) then 0 else 1))%nat.
Proof.
  stage_cases t; unfold debug_log, console_log, new_Notice, set_env;
    repeat match goal with
           | |- context [if debug settings then _ else _] => destruct (debug settings)
           end;
    cbn [notices is_done]; rewrite ?length_app; cbn [length];
    repeat match goal with
           | |- context [if is_done ?s then _ else _] => destruct (is_done s)
           end; lia.
Qed.

(** Without debug mode a step writes nothing to the console. *)
Lemma step_console (t : task) (w : World V) :
  debug settings = false → console (step t w).2 = console w.
Proof.
  intros Hdebug. stage_cases t; unfold debug_log; rewrite ?Hdebug; done.
Qed.

Lemma run_rank i : ∀ schedule (pool : list task) (w : World V) t,
  pool !! i = Some t →
  ∃ t', (run schedule (pool, w)).1 !! i = Some t'
        ∧ fileToTranscribe t' = fileToTranscribe t
        ∧ (rank (stage_of t') ≤ rank (stage_of t) - picks i schedule)%nat.
Proof.
  induction schedule as [|j rest IH]; intros pool w t Hlook.
  { exists t. repeat split; [done | cbn; lia]. }
  rewrite run_cons. unfold step_at. cbn [fst snd].
  destruct (decide (j = i)) as [->|Hne].
  - rewrite Hlook. pose proof (step_rank t w) as Hrank.
    pose proof (step_file t w) as Hfile.
    destruct (step t w) as [t1 w1]. cbn [fst] in Hrank, Hfile.
    destruct (IH (<[i := t1]> pool) w1 t1) as (t' & Ht' & Hf' & Hr').
    { apply list_lookup_insert_eq. by eapply lookup_lt_Some. }
    exists t'. rewrite picks_cons_eq. repeat split; [done | congruence | lia].
  - rewrite picks_cons_ne by done.
    destruct (pool !! j) as [tj|]; [|by apply IH].
    destruct (step tj w) as [t1 w1]. apply IH.
    by rewrite list_lookup_insert_ne.
Qed.

Lemma run_notices : ∀ schedule (pool : list task) (w : World V),
  (length (notices (run schedule (pool, w)).2) + pending (run schedule (pool, w)).1
   ≤ length (notices w) + pending pool)%nat.
Proof.
  induction schedule as [|j rest IH]; intros pool w; [done|].
  rewrite run_cons. unfold step_at. cbn [fst snd].
  destruct (pool !! j) as [tj|] eqn:Hlook; [|by apply IH].
  pose proof (step_notices tj w) as Hstep.
  destruct (step tj w) as [t1 w1]. cbn [fst snd] in Hstep.
  pose proof (pending_insert pool j tj t1 Hlook) as Hpend.
  specialize (IH (<[j := t1]> pool) w1).
  destruct (is_done (stage_of tj)), (is_done (stage_of t1)); lia.
Qed.

Lemma run_console : ∀ schedule (pool : list task) (w : World V),
  debug settings = false → console (run schedule (pool, w)).2 = console w.
Proof.
  induction schedule as [|j rest IH]; intros pool w Hdebug; [done|].
  rewrite run_cons. unfold step_at. cbn [fst snd].
  destruct (pool !! j) as [tj|]; [|by apply IH].
  pose proof (step_console tj w Hdebug) as Hstep.
  destruct (step tj w) as [t1 w1]. cbn [snd] in Hstep.
  rewrite IH by done. done.
Qed.

End RunFacts.

(** X8.  Every chain comes to an end, whatever the host answers and
    however the event loop interleaves the chains: once the schedule has
    picked a chain as often as its stage has steps left (seven from the
    start), the chain is done, and it still belongs to the same file. *)
Theorem chain_finishes :
  ∀ {V : Type} `{Host V} (settings : TranscriptionSettings) (view_file : TFile)
    (JSON_stringify : TranscriptionResult → jsstring)
    (schedule : list nat) (pool : list task) (w : World V) (i : nat) (t : task),
    pool !! i = Some t →
    (rank (stage_of t) ≤ picks i schedule)%nat →
    (run settings view_file JSON_stringify schedule (pool, w)).1 !! i
    = Some (chain (fileToTranscribe t) Done).
Proof.
  intros V HV settings view_file JSON_stringify schedule pool w i t Hlook Hpicks.
  destruct (run_rank settings view_file JSON_stringify i schedule pool w t Hlook)
    as (t' & -> & Hfile & Hrank).
  f_equal. destruct t' as [file' s']. cbn in Hfile, Hrank. subst file'.
  unfold chain. f_equal. apply rank_0_Done. lia.
Qed.

Lemma chain_finishes_witness :
  (run DEFAULT_SETTINGS note_md text_only
     [1; 0; 1; 0; 1; 0; 1; 1; 0; 1; 1; 0; 0; 0]%nat
     ((editorCallback DEFAULT_SETTINGS note_md two_recordings).1,
      (editorCallback DEFAULT_SETTINGS note_md two_recordings).2)).1 !! 1%nat
  = Some (chain recording_webm Done).
Proof.
  assert (Hlook : (editorCallback DEFAULT_SETTINGS note_md two_recordings).1 !! 1%nat
                  = Some (chain recording_webm
                            (AwaitReadBinary (lit "Yb0sE5uHn8dRc4Vg"))))
    by (vm_compute; reflexivity).
  assert (Hpicks :
    (rank (stage_of (chain recording_webm (AwaitReadBinary (lit "Yb0sE5uHn8dRc4Vg"))))
     ≤ picks 1 [1; 0; 1; 0; 1; 0; 1; 1; 0; 1; 1; 0; 0; 0])%nat)
    by (vm_compute; lia).
  exact (chain_finishes DEFAULT_SETTINGS note_md text_only
           [1; 0; 1; 0; 1; 0; 1; 1; 0; 1; 1; 0; 0; 0]%nat
           (editorCallback DEFAULT_SETTINGS note_md two_recordings).1
           (editorCallback DEFAULT_SETTINGS note_md two_recordings).2
           1%nat _ Hlook Hpicks).
Defined.

Section DispatchFacts.
Context {V : Type} `{Host V}.
Variable settings : TranscriptionSettings.
Variable view_file : TFile.

Lemma step_notices_prefix JSON_stringify (t : task) (w : World V) :
  notices w `prefix_of` notices (step settings view_file JSON_stringify t w).2.
Proof.
  destruct t as [file s]. unfold step. cbn [fileToTranscribe stage_of].
  destruct s; cbn [fst snd];
    unfold on_readBinary, on_response, engine_catch, on_fulfilled, on_read,
      on_modify, on_createBinary, on_rejected;
    repeat match goal with
           | |- context [match ?x with inl _ => _ | inr _ => _ end] => destruct x
           end;
    cbn [fst snd]; unfold debug_log, console_log, new_Notice, set_env;
    repeat match goal with
           | |- context [if debug settings then _ else _] => destruct (debug settings)
           end;
    cbn [notices]; (done || by apply prefix_app_r).
Qed.

Lemma run_notices_prefix JSON_stringify : ∀ schedule (pool : list task) (w : World V),
  notices w `prefix_of` notices (run settings view_file JSON_stringify schedule (pool, w)).2.
Proof.
  induction schedule as [|j rest IH]; intros pool w; [done|].
  rewrite run_cons. unfold step_at. cbn [fst snd].
  destruct (pool !! j) as [tj|]; [|by apply IH].
  pose proof (step_notices_prefix JSON_stringify tj w) as Hstep.
  destruct (step settings view_file JSON_stringify tj w) as [t1 w1].
  cbn [snd] in Hstep. etrans; [exact Hstep | apply IH].
Qed.

(** The second loop starts one chain per file, in the order of the files,
    each at its first wait; it shows no notice. *)
Lemma dispatch_spec : ∀ (files : list TFile) (w : World V),
  map fileToTranscribe (dispatch settings files w).1 = files
  ∧ Forall (λ t, ∃ rnd, stage_of t = AwaitReadBinary rnd) (dispatch settings files w).1
  ∧ notices (dispatch settings files w).2 = notices w
  ∧ (debug settings = false → console (dispatch settings files w).2 = console w).
Proof.
  induction files as [|file rest IH]; intros w; [by repeat split|].
  cbn [dispatch].
  destruct (randomString 16 (env (debug_log settings (lit "Transcribing " ++ path file) w)))
    as [rnd v].
  specialize (IH (set_env v (debug_log settings (lit "Transcribing " ++ path file) w))).
  destruct (dispatch settings rest _) as [pool w2]. cbn [fst snd] in *.
  destruct IH as (Hfiles & Hstages & Hnotices & Hconsole).
  repeat split.
  - cbn [map fileToTranscribe]. by rewrite Hfiles.
  - constructor; [by exists rnd | done].
  - rewrite Hnotices. cbn [set_env notices]. by rewrite notices_debug_log.
  - intros Hdebug. rewrite Hconsole by done. cbn [set_env console].
    unfold debug_log. by rewrite Hdebug.
Qed.

Lemma collect_console (filesLinked : list jsstring) : ∀ acc (w : World V),
  debug settings = false → console (collect settings filesLinked acc w).2 = console w.
Proof.
  induction filesLinked as [|p rest IH]; intros acc w Hdebug; [done|].
  cbn [collect]. destruct (skipped settings p).
  - rewrite IH by done. unfold debug_log. by rewrite Hdebug.
  - destruct (vault_getAbstractFileByPath p (env w)) as [[f|d]|];
      rewrite IH by done; unfold debug_log; by rewrite ?Hdebug.
Qed.

End DispatchFacts.

(** X9.  No chain shows more than one failure notice, in any interleaving
    and whatever the host answers: a run only appends notices, and at most
    as many as there were unfinished chains; every notice shown takes one
    chain off the unfinished ones. *)
Theorem at_most_one_notice_per_chain :
  ∀ {V : Type} `{Host V} (settings : TranscriptionSettings) (view_file : TFile)
    (JSON_stringify : TranscriptionResult → jsstring)
    (schedule : list nat) (pool : list task) (w : World V),
    notices w
      `prefix_of` notices (run settings view_file JSON_stringify schedule (pool, w)).2
    ∧ (length (notices (run settings view_file JSON_stringify schedule (pool, w)).2)
       + pending (run settings view_file JSON_stringify schedule (pool, w)).1
       ≤ length (notices w) + pending pool)%nat.
Proof.
  intros. split; [apply run_notices_prefix | apply run_notices].
Qed.

(** X10.  Without debug mode the plugin writes nothing to the console:
    not when the command collects the links and starts the chains, and not
    in any step of any chain afterwards. *)
Theorem silent_without_debug :
  ∀ {V : Type} `{Host V} (settings : TranscriptionSettings) (view_file : TFile)
    (JSON_stringify : TranscriptionResult → jsstring)
    (schedule : list nat) (w : World V),
    debug settings = false →
    console (run settings view_file JSON_stringify schedule
               (editorCallback settings view_file w)).2
    = console w.
Proof.
  intros V HV settings view_file JSON_stringify schedule w Hdebug.
  unfold editorCallback. set (w1 := new_Notice _ _ _).
  assert (Hc1 : console w1 = console w).
  { subst w1. cbn [new_Notice console]. unfold debug_log. by rewrite Hdebug. }
  pose proof (collect_console settings
                (resolvedLinks_keys (path view_file) (env w1)) [] w1 Hdebug) as Hc.
  destruct (collect settings _ [] w1) as [files w0]. cbn [snd] in Hc.
  pose proof (dispatch_spec settings files w0) as (_ & _ & _ & Hconsole).
  destruct (dispatch settings files w0) as [pool w2]. cbn [snd] in Hconsole.
  rewrite (run_console settings view_file JSON_stringify schedule pool w2 Hdebug).
  rewrite Hconsole by done. congruence.
Qed.

Lemma silent_without_debug_witness :
  console (run DEFAULT_SETTINGS note_md text_only [0; 1; 0; 1; 1; 0; 1; 1; 1]%nat
             (editorCallback DEFAULT_SETTINGS note_md two_recordings)).2
  = console two_recordings.
Proof.
  exact (silent_without_debug DEFAULT_SETTINGS note_md text_only
           [0; 1; 0; 1; 1; 0; 1; 1; 1]%nat two_recordings eq_refl).
Defined.

(** X11.  The command itself: it shows exactly one notice, naming the
    note, for three seconds; it starts one chain per link of the note that
    passes the extension test and resolves to a file, in the order of the
    links, every chain waiting for its file's bytes; and it returns without
    waiting for any of them. *)
Theorem command_starts_one_chain_per_candidate :
  ∀ {V : Type} `{Host V} (settings : TranscriptionSettings) (view_file : TFile)
    (w : World V),
    map fileToTranscribe (editorCallback settings view_file w).1
    = omap (resolved_file (env w))
        (filter (λ p, skipped settings p = false)
           (resolvedLinks_keys (path view_file) (env w)))
    ∧ Forall (λ t, ∃ rnd, stage_of t = AwaitReadBinary rnd)
        (editorCallback settings view_file w).1
    ∧ notices (editorCallback settings view_file w).2
      = notices w
          ++ [(lit "Transcribing all audio files in " ++ name view_file, Some 3000)].
Proof.
  intros V HV settings view_file w. unfold editorCallback.
  set (w1 := new_Notice _ _ _).
  assert (Henv : env w1 = env w) by (subst w1; cbn; by rewrite env_debug_log).
  pose proof (collect_spec settings (resolvedLinks_keys (path view_file) (env w1))
                [] w1) as Hfiles.
  pose proof (collect_env settings (resolvedLinks_keys (path view_file) (env w1))
                [] w1) as [_ Hnot].
  destruct (collect settings _ [] w1) as [files w0].
  cbn [fst snd app] in Hfiles, Hnot.
  pose proof (dispatch_spec settings files w0) as (Hmap & Hstages & Hnot' & _).
  repeat split; [| done |].
  - by rewrite Hmap, Hfiles, Henv.
  - rewrite Hnot', Hnot. subst w1. cbn [new_Notice notices].
    by rewrite notices_debug_log.
Qed.

(** ** The collector: its log and the extension setting *)

(** X12.  In debug mode no link is dropped without a trace: the collector
    writes exactly one console line for every link it does not collect
    (skipped for its extension, or not resolving to a file), and none for
    the links it collects. *)
Theorem dropped_links_are_logged :
  ∀ {V : Type} `{Host V} (settings : TranscriptionSettings)
    (filesLinked : list jsstring) (filesToTranscribe : list TFile) (w : World V),
    debug settings = true →
    (length (console (collect settings filesLinked filesToTranscribe w).2)
     + length (collect settings filesLinked filesToTranscribe w).1
     = length (console w) + length filesToTranscribe + length filesLinked)%nat.
Proof.
  intros V HV settings filesLinked. induction filesLinked as [|p rest IH];
    intros acc w Hdebug; [cbn; lia|].
  cbn [collect]. destruct (skipped settings p).
  - rewrite IH by done. unfold debug_log. rewrite Hdebug.
    cbn [console_log console length]. rewrite length_app. cbn [length]. lia.
  - destruct (vault_getAbstractFileByPath p (env w)) as [[f|d]|];
      rewrite IH by done; unfold debug_log; rewrite ?Hdebug;
      cbn [console_log console length]; rewrite length_app; cbn [length]; lia.
Qed.

Lemma dropped_links_are_logged_witness :
  (length (console
             (collect DEBUG_SETTINGS
                [lit "audio/Recording.webm"; lit "note.md"; lit "lost.mp3"] []
                (sample_world [] hello_server)).2)
   + length (collect DEBUG_SETTINGS
               [lit "audio/Recording.webm"; lit "note.md"; lit "lost.mp3"] []
               (sample_world [] hello_server)).1
   = length (console (sample_world [] hello_server)) + length (@nil TFile)
     + length [lit "audio/Recording.webm"; lit "note.md"; lit "lost.mp3"])%nat.
Proof.
  exact (dropped_links_are_logged DEBUG_SETTINGS
           [lit "audio/Recording.webm"; lit "note.md"; lit "lost.mp3"] []
           (sample_world [] hello_server) eq_refl).
Defined.

Lemma split_no_separator c (s : jsstring) : c ∉ s → split c s = [s].
Proof.
  induction s as [|x s IH]; [done|]. intros Hc. cbn [split].
  destruct (N.eqb_spec x c) as [->|Hne]; [by destruct Hc; left|].
  rewrite IH; [done|]. intros ?. apply Hc. by right.
Qed.

Lemma split_app_separator c (s rest : jsstring) :
  c ∉ s → split c (s ++ c :: rest) = s :: split c rest.
Proof.
  induction s as [|x s IH]; intros Hc; cbn [app split].
  - by rewrite N.eqb_refl.
  - destruct (N.eqb_spec x c) as [->|Hne]; [by destruct Hc; left|].
    rewrite IH; [done|]. intros ?. apply Hc. by right.
Qed.

(** Splitting at commas undoes joining with commas, for a list that is not
    empty and whose members contain no comma. *)
Lemma split_join_comma (exts : list jsstring) :
  exts ≠ [] → Forall (λ e, 44 ∉ e) exts →
  split 44 (join (lit ",") exts) = exts.
Proof.
  intros Hne Hall. induction Hall as [|e rest He Hrest IH]; [done|].
  destruct rest as [|e' rest].
  - cbn [join]. by apply split_no_separator.
  - change (join (lit ",") (e :: e' :: rest))
      with (e ++ 44 :: join (lit ",") (e' :: rest)).
    rewrite split_app_separator by done. by rewrite IH.
Qed.

(** X13.  What the extension setting means: when it is the members
    [e1,...,en] joined by commas (at least one member, no comma inside a
    member), a link passes the extension test exactly when the piece after
    its last ['.'] is, character for character, one of the members; nothing
    is trimmed and case is not folded. *)
Theorem extension_setting_is_exact_membership :
  ∀ (settings : TranscriptionSettings) (exts : list jsstring)
    (linkedFilePath : jsstring),
    exts ≠ [] →
    Forall (λ e, 44 ∉ e) exts →
    transcribeFileExtensions settings = join (lit ",") exts →
    skipped settings linkedFilePath = false
    ↔ ∃ e, linkedFileExtension linkedFilePath = Some e ∧ e ∈ exts.
Proof.
  intros settings exts p Hne Hall Hsetting. unfold skipped.
  rewrite Hsetting, split_join_comma by done. unfold includes.
  destruct (linkedFileExtension p) as [e|].
  - rewrite negb_false_iff, bool_decide_eq_true. split; [eauto|].
    by intros (e' & [= <-] & ?).
  - split; [done | by intros (e' & ? & _)].
Qed.

Lemma extension_setting_is_exact_membership_witness :
  skipped DEFAULT_SETTINGS (lit "audio/Recording.WEBM") = false
  ↔ ∃ e, linkedFileExtension (lit "audio/Recording.WEBM") = Some e
         ∧ e ∈ [lit "mp3"; lit "wav"; lit "webm"].
Proof.
  assert (Hne : [lit "mp3"; lit "wav"; lit "webm"] ≠ []) by discriminate.
  assert (Hall : Forall (λ e, 44 ∉ e) [lit "mp3"; lit "wav"; lit "webm"])
    by (apply (bool_decide_unpack _); vm_compute; exact I).
  exact (extension_setting_is_exact_membership DEFAULT_SETTINGS
           [lit "mp3"; lit "wav"; lit "webm"] (lit "audio/Recording.WEBM")
           Hne Hall eq_refl).
Defined.

(** X14.  An empty extension setting does not mean an empty list: it
    splits into the one member that is the empty string, so the only links
    that pass the extension test are those ending in ['.'] (and the empty
    path); every link with something after its last ['.'] is skipped. *)
Theorem empty_extension_setting :
  ∀ (settings : TranscriptionSettings) (linkedFilePath : jsstring),
    transcribeFileExtensions settings = [] →
    skipped settings linkedFilePath = false
    ↔ (linkedFilePath = [] ∨ ∃ stem, linkedFilePath = stem ++ lit ".").
Proof.
  intros settings p Hsetting. rewrite skipped_spec, Hsetting.
  rewrite negb_false_iff, bool_decide_eq_true. cbn [split].
  rewrite list_elem_of_singleton. unfold extension.
  destruct (after_final 46 p) as [r|] eqn:Hr; unfold default; cbn [from_option id].
  - split.
    + intros ->. right. clear Hsetting. induction p as [|x p IH]; [done|].
      cbn [after_final] in Hr. destruct (after_final 46 p) as [r|] eqn:Hp.
      * destruct (IH Hr) as [stem ->]. by exists (x :: stem).
      * destruct (N.eqb_spec x 46) as [->|]; [|done].
        injection Hr as ->. by exists [].
    + intros [->|[stem ->]]; [done|].
      change (stem ++ lit ".") with (stem ++ 46 :: []) in Hr.
      rewrite after_final_app in Hr by (by intros ?%elem_of_nil). congruence.
  - split; [by left|]. intros [->|[stem ->]]; [done|].
    change (stem ++ lit ".") with (stem ++ 46 :: []) in Hr.
    rewrite after_final_app in Hr by (by intros ?%elem_of_nil). done.
Qed.

Lemma empty_extension_setting_witness :
  skipped
    {| timestamps := false; transcribeFileExtensions := [];
       whisperASRUrl := lit "http://localhost:9000"; debug := false |}
    (lit "audio/odd.") = false
  ↔ (lit "audio/odd." = [] ∨ ∃ stem, lit "audio/odd." = stem ++ lit ".").
Proof.
  exact (empty_extension_setting
           {| timestamps := false; transcribeFileExtensions := [];
              whisperASRUrl := lit "http://localhost:9000"; debug := false |}
           (lit "audio/odd.") eq_refl).
Defined.

(** ** The splice and the JSON file *)

(** X15.  The splice only inserts.  For every note text, link text and
    transcription, found citation or not, the new text is the old one with
    a newline and the joined segments put in at one position inside it;
    cutting that block out again gives back the note, character for
    character. *)
Theorem splice_only_inserts :
  ∀ (fileText fileLinkString : jsstring) (transcription : TranscriptionResult),
    ∃ k : nat,
      inserted_at fileText (nl ++ segments transcription)
        (spliced fileText fileLinkString transcription) k
      ∧ take k (spliced fileText fileLinkString transcription)
          ++ drop (k + length (nl ++ segments transcription))
               (spliced fileText fileLinkString transcription)
        = fileText.
Proof.
  intros fileText fileLinkString transcription.
  pose proof (spliced_take_drop fileText fileLinkString transcription) as Hs.
  cbn zeta in Hs.
  set (i := Z.to_nat (startReplacementIndex fileText
                        (fileLinkStringTagged fileLinkString))) in *.
  set (ins := nl ++ segments transcription) in *.
  exists (Nat.min i (length fileText)).
  assert (Htake : take (Nat.min i (length fileText)) fileText = take i fileText).
  { destruct (decide (i ≤ length fileText)%nat).
    - by rewrite Nat.min_l by lia.
    - rewrite Nat.min_r by lia. by rewrite !take_ge by lia. }
  assert (Hdrop : drop (Nat.min i (length fileText)) fileText = drop i fileText).
  { destruct (decide (i ≤ length fileText)%nat).
    - by rewrite Nat.min_l by lia.
    - rewrite Nat.min_r by lia. by rewrite !drop_ge by lia. }
  split; [split|].
  - lia.
  - by rewrite Htake, Hdrop.
  - rewrite Hs, <- Htake, <- Hdrop.
    set (k := (Nat.min i (length fileText))).
    assert (Hk : length (take k fileText) = k).
    { rewrite length_take. subst k. lia. }
    rewrite take_app_length' by done.
    rewrite app_assoc, drop_app_length' by (rewrite length_app; lia).
    apply take_drop.
Qed.

(** X16.  The name of the JSON file depends on the folder and on the
    extension only: two audio files of one folder whose link texts end in
    the same extension get the same path, so the second [createBinary]
    meets the file of the first. *)
Theorem same_extension_same_sidecar :
  ∀ (file1 file2 : TFile) (stem1 stem2 ext : jsstring),
    parent file1 = parent file2 →
    46 ∉ ext →
    sidecar_path file1 (stem1 ++ lit "." ++ ext)
    = sidecar_path file2 (stem2 ++ lit "." ++ ext).
Proof.
  intros file1 file2 stem1 stem2 ext Hparent Hext. unfold sidecar_path.
  by rewrite Hparent, !fileLinkStringJson_extension.
Qed.

Lemma same_extension_same_sidecar_witness :
  sidecar_path (file_at (lit "audio/Monday.webm")) (lit "Monday" ++ lit "." ++ lit "webm")
  = sidecar_path (file_at (lit "audio/Friday.webm")) (lit "Friday" ++ lit "." ++ lit "webm").
Proof.
  assert (Hext : 46 ∉ lit "webm")
    by (apply (bool_decide_unpack _); vm_compute; exact I).
  exact (same_extension_same_sidecar (file_at (lit "audio/Monday.webm"))
           (file_at (lit "audio/Friday.webm")) (lit "Monday") (lit "Friday")
           (lit "webm") eq_refl Hext).
Defined.

(** ** The settings *)

Lemma assign_from_complete (target : SettingsObject) (s : TranscriptionSettings) :
  assign_from target (Some (object_of s)) = object_of s.
Proof. reflexivity. Qed.

(** X17.  Loading never leaves a setting undefined: whatever [data.json]
    holds, nothing at all or any subset of the keys, the settings after
    [loadSettings] have all four keys; a saved key keeps its saved value and
    a missing one takes the value of [DEFAULT_SETTINGS]. *)
Theorem loadSettings_fills_defaults :
  ∀ p : PluginData,
    settings_object (loadSettings p)
    = object_of
        {| timestamps :=
             default (timestamps DEFAULT_SETTINGS) (data_json p ≫= o_timestamps);
           transcribeFileExtensions :=
             default (transcribeFileExtensions DEFAULT_SETTINGS)
               (data_json p ≫= o_transcribeFileExtensions);
           whisperASRUrl :=
             default (whisperASRUrl DEFAULT_SETTINGS)
               (data_json p ≫= o_whisperASRUrl);
           debug := default (debug DEFAULT_SETTINGS) (data_json p ≫= o_debug) |}.
Proof.
  intros [current [[[ts|] [ext|] [u|] [d|]]|]]; reflexivity.
Qed.

(** X18.  A change made in the settings tab survives a restart: after
    loading, changing one setting (which saves) and loading again, the
    settings are exactly what they were after the change, the changed key
    holds the new value, and [data.json] holds the same object. *)
Theorem setting_change_persists :
  ∀ (c : setting_change) (p : PluginData),
    let changed := onChange c (loadSettings p) in
    settings_object (loadSettings changed) = settings_object changed
    ∧ holds c (settings_object (loadSettings changed))
    ∧ data_json changed = Some (settings_object changed).
Proof.
  intros c [current [[[ts|] [ext|] [u|] [d|]]|]]; destruct c;
    repeat split; reflexivity.
Qed.

Section TimestampsFacts.
Context {V : Type} `{Host V}.
Variable s : TranscriptionSettings.
Variable b : bool.
Variable view_file : TFile.
Variable JSON_stringify : TranscriptionResult → jsstring.

Lemma collect_with_timestamps (filesLinked : list jsstring) :
  ∀ acc (w : World V),
    collect (with_timestamps b s) filesLinked acc w = collect s filesLinked acc w.
Proof.
  induction filesLinked as [|p rest IH]; intros acc w; [done|].
  cbn [collect].
  change (skipped (with_timestamps b s) p) with (skipped s p).
  destruct (skipped s p); [apply IH|].
  destruct (vault_getAbstractFileByPath p (env w)) as [[f|d]|]; apply IH.
Qed.

Lemma dispatch_with_timestamps (files : list TFile) :
  ∀ w : World V, dispatch (with_timestamps b s) files w = dispatch s files w.
Proof.
  induction files as [|file rest IH]; intros w; [done|].
  cbn [dispatch].
  change (debug_log (with_timestamps b s)) with (debug_log (V := V) s).
  destruct (randomString 16 _) as [rnd v]. by rewrite IH.
Qed.

Lemma step_with_timestamps (t : task) (w : World V) :
  step (with_timestamps b s) view_file JSON_stringify t w
  = step s view_file JSON_stringify t w.
Proof. by destruct t as [file []]. Qed.

Lemma run_with_timestamps : ∀ schedule (p : list task * World V),
  run (with_timestamps b s) view_file JSON_stringify schedule p
  = run s view_file JSON_stringify schedule p.
Proof.
  induction schedule as [|i rest IH]; intros p; [done|].
  rewrite !run_cons, IH.
  assert (Hstep : step_at (with_timestamps b s) view_file JSON_stringify i p
                  = step_at s view_file JSON_stringify i p).
  { unfold step_at. destruct (p.1 !! i) as [t|]; [|done].
    by rewrite step_with_timestamps. }
  by rewrite Hstep.
Qed.

End TimestampsFacts.

(** X19.  The timestamps switch of the settings tab is read nowhere:
    with it on or off, the command collects the same files, starts the same
    chains, and every run of them leaves the same vault, notices, console
    and chains. *)
Theorem timestamps_setting_changes_nothing :
  ∀ {V : Type} `{Host V} (s : TranscriptionSettings) (b : bool)
    (view_file : TFile) (JSON_stringify : TranscriptionResult → jsstring)
    (schedule : list nat) (w : World V),
    run (with_timestamps b s) view_file JSON_stringify schedule
      (editorCallback (with_timestamps b s) view_file w)
    = run s view_file JSON_stringify schedule (editorCallback s view_file w).
Proof.
  intros V HV s b view_file JSON_stringify schedule w.
  rewrite run_with_timestamps.
  assert (Hstart : editorCallback (with_timestamps b s) view_file w
                   = editorCallback s view_file w).
  { unfold editorCallback.
    change (debug_log (with_timestamps b s)) with (debug_log (V := V) s).
    rewrite collect_with_timestamps.
    destruct (collect s _ [] _) as [files w0]. apply dispatch_with_timestamps. }
  by rewrite Hstart.
Qed.
